(** * abr-geocoder: download fabric, Tokyo-23-ward stage, JSON formatter, init guards

    A shallow embedding of the TypeScript sources
      - [DownloadTransform]      (download stream with its retry loop),
      - [Tokyo23TownTranform]    (trie-backed town stage of the geocoder),
      - [JsonTransform]          (JSON output formatter),
      - [geocodingAction] / [downloadDataset] (run-once initialisation),
    with the properties the specification states about them.

    JavaScript strings are sequences of UTF-16 code units, numbers that are
    used as integers ([retry], [runningTasks], [lineNum], keys) are [Z],
    the other numbers are IEEE binary64 ([PrimFloat.float]).  Thrown
    exceptions are the [Throw] case of a small error monad. *)

From Stdlib Require Import ZArith NArith List Bool Ascii String DecimalString Lia PrimFloat.
From stdpp Require Import base option list gmap.

Set Default Proof Using "Type".
Local Open Scope Z_scope.

(** ** JavaScript values shared by the components *)

Module Js.

(** A string is its list of UTF-16 code units. *)
Definition jsstring : Type := list N.

(** An ASCII literal of the source as a JavaScript string. *)
Definition lit (s : String.string) : jsstring :=
  List.map N_of_ascii (list_ascii_of_string s).
Arguments lit : simpl never.

(** Values that a [throw] statement or a failing built-in raises. *)
Inductive Exception : Type :=
  | Error (message : jsstring)
  | TypeError (message : jsstring).

(** A computation either returns or throws. *)
Inductive Result (A : Type) : Type :=
  | Ok (value : A)
  | Throw (e : Exception).
Arguments Ok {A} value.
Arguments Throw {A} e.

#[global] Instance Result_ret : MRet Result := fun A a => Ok a.

#[global] Instance Result_bind : MBind Result := fun A B k m =>
  match m with
  | Ok a => k a
  | Throw e => Throw e
  end.

(** [x || d] on an optional string: [undefined], [null] and [''] are falsy. *)
Definition or_else (x : option jsstring) (d : jsstring) : jsstring :=
  match x with
  | Some (c :: s) => c :: s
  | _ => d
  end.

(** [retry--] on a Number holding an integer.  Integers are exact down to
    [-2^53]; from there on subtracting 1 rounds back to the same double. *)
Definition number_dec (n : Z) : Z :=
  if n <=? - 2 ^ 53 then n else n - 1.

(** [n++] on a Number holding an integer, with the same saturation at [2^53]. *)
Definition number_inc (n : Z) : Z :=
  if 2 ^ 53 <=? n then n else n + 1.

End Js.


(** ** DownloadTransform: the download stream and its retry loop *)

Module Download.
Import Js.

Section DownloadTransform.

(** The fields of a [DownloadRequest] other than [useCache], the answer of
    the worker ([DownloadQueryBase]) with its test [isDownloadProcessError],
    and the value a rejected [run] carries: their declarations are in the
    domain models, outside the sources embedded here. *)
Variable RequestData : Type.
Variable DownloadQueryBase : Type.
Variable isDownloadProcessError : DownloadQueryBase -> bool.
Variable Thrown : Type.

Record DownloadRequest : Type := mkRequest {
  data : RequestData;
  useCache : bool
}.

(** [params.useCache = b]: the request object is updated in place. *)
Definition set_useCache (b : bool) (params : DownloadRequest) : DownloadRequest :=
  {| data := data params; useCache := b |}.

(** What one call of [_write] or [_final] does to its surroundings, in
    program order.  [Run] carries the request as it is when
    [this.downloader.run(params)] is called. *)
Inductive Effect : Type :=
  | Callback
  | Run (task : nat) (params : DownloadRequest)
  | Push (item : DownloadQueryBase)
  | PushNull
  | SetTimeout (task : nat) (ms : float).

(** Where a suspended call of [_write] waits. *)
Inductive Await : Type :=
  | AwaitRun
  | AwaitTimeout.

(** The locals of one suspended call of [_write]. *)
Record Task : Type := mkTask {
  params : DownloadRequest;
  retry : Z;
  waiting : Await
}.

(** The fields of the stream object, and the calls of [_write] that have
    not returned yet (numbered in the order of the calls). *)
Record State : Type := mkState {
  receivedFinal : bool;
  runningTasks : Z;
  tasks : gmap nat Task;
  calls : nat
}.

Definition init : State :=
  {| receivedFinal := false; runningTasks := 0; tasks := ∅; calls := 0 |}.

(** What the event loop delivers: a call from upstream, the settling of a
    promise a task awaits, or the end of the upstream.  A rejection comes
    with the draw of [Math.random()] its handler makes. *)
Inductive Event : Type :=
  | Write (request : DownloadRequest)
  | Resolved (task : nat) (downloadResult : DownloadQueryBase)
  | Rejected (task : nat) (e : Thrown) (random : float)
  | TimerFired (task : nat)
  | Final.

(** [Math.random() * 5000 + 100] *)
Definition delay (random : float) : float := (random * 5000 + 100)%float.

(** The head of [while (retry < 5)]: either the next
    [await this.downloader.run(params)] starts, or the loop and with it
    [_write] is left. *)
Definition loop_head (id : nat) (p : DownloadRequest) (r : Z) (st : State)
  : State * list Effect :=
  if r <? 5 then
    ({| receivedFinal := receivedFinal st;
        runningTasks := runningTasks st;
        tasks := <[id := {| params := p; retry := r; waiting := AwaitRun |}]> (tasks st);
        calls := calls st |},
     [Run id p])
  else
    ({| receivedFinal := receivedFinal st;
        runningTasks := runningTasks st;
        tasks := delete id (tasks st);
        calls := calls st |},
     []).

(** [this.push(result); if (this.runningTasks === 0 && this.receivedFinal)
    this.push(null);] *)
Definition push_result (running : Z) (final : bool) (item : DownloadQueryBase)
  : list Effect :=
  Push item :: (if (running =? 0) && final then [PushNull] else []).

(** One turn of the event loop; [None] when the event has no task to go
    to.  (The two [console.debug] lines of the handler only write to the
    console and are left out.) *)
Definition step (st : State) (ev : Event) : option (State * list Effect) :=
  match ev with
  | Write request =>
      let id := calls st in
      let st1 := {| receivedFinal := receivedFinal st;
                    runningTasks := number_inc (runningTasks st);
                    tasks := tasks st;
                    calls := S (calls st) |} in
      let '(st2, effs) := loop_head id (set_useCache true request) 0 st1 in
      Some (st2, Callback :: effs)
  | Resolved id downloadResult =>
      match tasks st !! id with
      | Some {| waiting := AwaitRun |} =>
          let running := number_dec (runningTasks st) in
          let st1 := {| receivedFinal := receivedFinal st;
                        runningTasks := running;
                        tasks := delete id (tasks st);
                        calls := calls st |} in
          if isDownloadProcessError downloadResult then
            Some (st1, push_result running (receivedFinal st) downloadResult)
          else
            Some (st1, push_result running (receivedFinal st) downloadResult)
      | _ => None
      end
  | Rejected id _ random =>
      match tasks st !! id with
      | Some {| params := p; retry := r; waiting := AwaitRun |} =>
          let t := {| params := p; retry := number_dec r; waiting := AwaitTimeout |} in
          Some ({| receivedFinal := receivedFinal st;
                   runningTasks := runningTasks st;
                   tasks := <[id := t]> (tasks st);
                   calls := calls st |},
                [SetTimeout id (delay random)])
      | _ => None
      end
  | TimerFired id =>
      match tasks st !! id with
      | Some {| params := p; retry := r; waiting := AwaitTimeout |} =>
          Some (loop_head id (set_useCache false p) r st)
      | _ => None
      end
  | Final =>
      Some ({| receivedFinal := true;
               runningTasks := runningTasks st;
               tasks := tasks st;
               calls := calls st |},
            [Callback])
  end.

(** A run of the stream: the events in the order the event loop delivers
    them, with the effects in the order they happen. *)
Fixpoint exec (evs : list Event) (st : State) (done : list Effect)
  : option (State * list Effect) :=
  match evs with
  | [] => Some (st, done)
  | ev :: evs' =>
      match step st ev with
      | Some (st', effs) => exec evs' st' (done ++ effs)
      | None => None
      end
  end.

Definition run (evs : list Event) : option (State * list Effect) :=
  exec evs init [].

(** The requests handed to the worker for one call of [_write]. *)
Definition attempts (id : nat) (effs : list Effect) : list DownloadRequest :=
  omap (fun e => match e with
                 | Run id' p => if decide (id' = id) then Some p else None
                 | _ => None
                 end) effs.

Definition is_push (e : Effect) : bool :=
  match e with Push _ => true | _ => false end.

Definition is_sentinel (e : Effect) : bool :=
  match e with PushNull => true | _ => false end.

Definition is_write (ev : Event) : bool :=
  match ev with Write _ => true | _ => false end.

(** The events of a request whose worker task throws each time: the call,
    then for every draw of the delay a rejection and the timer. *)
Definition failing (id : nat) (e : Thrown) (randoms : list float) : list Event :=
  flat_map (fun u => [Rejected id e u; TimerFired id]) randoms.

(** *** Runs and what holds along them *)

Lemma exec_app evs1 evs2 st done :
  exec (evs1 ++ evs2) st done =
  match exec evs1 st done with
  | Some (st', done') => exec evs2 st' done'
  | None => None
  end.
Proof.
  revert st done. induction evs1 as [|ev evs1 IH]; intros st done; simpl.
  - reflexivity.
  - destruct (step st ev) as [[st' effs]|]; [apply IH | reflexivity].
Qed.

(** Induction along a run: what holds at the start and is kept by every
    turn of the event loop holds at the end. *)
Lemma run_ind (P : State -> list Effect -> Prop) :
  P init [] ->
  (forall st done ev st' effs,
      P st done -> step st ev = Some (st', effs) -> P st' (done ++ effs)) ->
  forall evs st done, run evs = Some (st, done) -> P st done.
Proof.
  intros Hinit Hstep evs. unfold run.
  generalize init, (@nil Effect), Hinit.
  induction evs as [|ev evs IH]; intros st0 done0 H0 st done Hrun; simpl in Hrun.
  - by inversion Hrun; subst.
  - destruct (step st0 ev) as [[st' effs]|] eqn:Hs; [|done].
    eapply IH; [|exact Hrun]. by eapply Hstep.
Qed.

Lemma attempts_app id effs1 effs2 :
  attempts id (effs1 ++ effs2) = attempts id effs1 ++ attempts id effs2.
Proof. apply omap_app. Qed.

Lemma number_dec_le n : number_dec n <= n.
Proof. unfold number_dec. destruct (n <=? - 2 ^ 53); lia. Qed.

(** Every pending task was started by a call of [_write], its [retry] has
    only gone down from 0, and each such call has handed its request to
    the worker at least once. *)
Definition tasks_ok (st : State) (done : list Effect) : Prop :=
  (forall id t, tasks st !! id = Some t ->
     (id < calls st)%nat /\ retry t <= 0 /\ attempts id done <> []) /\
  (forall id, (calls st <= id)%nat -> attempts id done = []).

Lemma tasks_ok_step st done ev st' effs :
  tasks_ok st done -> step st ev = Some (st', effs) -> tasks_ok st' (done ++ effs).
Proof.
  intros [Hin Hout] Hs.
  destruct ev as [request|id r|id e u|id|]; simpl in Hs.
  - inversion Hs; subst; clear Hs. split; simpl.
    + intros id t. rewrite lookup_insert. case_decide as Hid.
      * intros [= <-]. subst id. simpl. repeat split; try lia.
        rewrite attempts_app. simpl. rewrite decide_True by done.
        by destruct (attempts (calls st) done).
      * intros Ht. destruct (Hin _ _ Ht) as (? & ? & ?).
        repeat split; try lia. rewrite attempts_app. by destruct (attempts id done).
    + intros id Hid. rewrite attempts_app, Hout by lia.
      simpl. by rewrite decide_False by lia.
  - destruct (tasks st !! id) as [[p r0 [|]]|] eqn:Ht; try done.
    assert (st' = {| receivedFinal := receivedFinal st;
                     runningTasks := number_dec (runningTasks st);
                     tasks := delete id (tasks st); calls := calls st |} /\
            effs = push_result (number_dec (runningTasks st)) (receivedFinal st) r)
      as [-> ->] by (destruct (isDownloadProcessError r); by inversion Hs).
    assert (forall i, attempts i (push_result (number_dec (runningTasks st))
                                      (receivedFinal st) r) = []) as Hnil.
    { intros i. unfold push_result. by destruct (_ && _). }
    split; simpl.
    + intros i t. rewrite lookup_delete. case_decide; [done|].
      intros Hi. rewrite attempts_app, Hnil, app_nil_r. by apply Hin.
    + intros i Hi. rewrite attempts_app, Hnil, app_nil_r. by apply Hout.
  - destruct (tasks st !! id) as [[p r0 [|]]|] eqn:Ht; try done.
    inversion Hs; subst; clear Hs. split; simpl.
    + intros i t. rewrite lookup_insert, attempts_app. simpl. rewrite app_nil_r.
      case_decide as Hid.
      * intros [= <-]. subst i. destruct (Hin _ _ Ht) as (? & ? & ?). simpl in *.
        repeat split; try done. pose proof (number_dec_le r0). lia.
      * apply Hin.
    + intros i Hi. rewrite attempts_app. simpl. rewrite app_nil_r. by apply Hout.
  - destruct (tasks st !! id) as [[p r0 [|]]|] eqn:Ht; try done.
    destruct (Hin _ _ Ht) as (Hlt & Hr & Hne). simpl in Hr.
    unfold loop_head in Hs. destruct (r0 <? 5) eqn:Hlt5; [|lia].
    inversion Hs; subst; clear Hs. split; simpl.
    + intros i t. rewrite lookup_insert, attempts_app. case_decide as Hid.
      * intros [= <-]. subst i. simpl. repeat split; try done.
        by destruct (attempts id done).
      * intros Hi. destruct (Hin _ _ Hi) as (? & ? & ?).
        repeat split; try done. by destruct (attempts i done).
    + intros i Hi. rewrite attempts_app, Hout by done. simpl.
      rewrite decide_False; [done | lia].
  - inversion Hs; subst; clear Hs. split; simpl.
    + intros i t Hi. rewrite attempts_app. simpl. rewrite app_nil_r. by apply Hin.
    + intros i Hi. rewrite attempts_app. simpl. rewrite app_nil_r. by apply Hout.
Qed.

Lemma tasks_ok_run evs st done : run evs = Some (st, done) -> tasks_ok st done.
Proof.
  revert evs st done. apply run_ind.
  - split; [intros id t; simpl; by rewrite lookup_empty | done].
  - intros. by eapply tasks_ok_step.
Qed.

(** The only requests a turn hands to the worker: the one of a new call of
    [_write], with the cache switched on, or the one of a pending task
    whose timer fired, with the cache switched off. *)
Lemma step_attempts st ev st' effs id :
  step st ev = Some (st', effs) ->
  attempts id effs = [] \/
  (id = calls st /\ exists p, attempts id effs = [set_useCache true p]) \/
  (is_Some (tasks st !! id) /\ exists p, attempts id effs = [set_useCache false p]).
Proof.
  intros Hs. destruct ev as [request|i r|i e u|i|]; simpl in Hs.
  - inversion Hs; subst; clear Hs. simpl. case_decide; [|by left].
    right; left. split; [done | by eexists].
  - destruct (tasks st !! i) as [[p r0 [|]]|]; try done. left.
    destruct (isDownloadProcessError r); inversion Hs; subst;
      unfold push_result; by destruct (_ && _).
  - destruct (tasks st !! i) as [[p r0 [|]]|]; try done.
    inversion Hs; subst. by left.
  - destruct (tasks st !! i) as [[p r0 [|]]|] eqn:Ht; try done.
    unfold loop_head in Hs. destruct (r0 <? 5); inversion Hs; subst; [|by left].
    simpl. case_decide; [|by left]. subst i.
    right; right. split; [by eexists | by eexists].
  - inversion Hs; subst. by left.
Qed.

(** The cache flags of the requests handed to the worker for one call. *)
Definition cache_flags (id : nat) (done : list Effect) : list bool :=
  useCache <$> attempts id done.

Lemma cache_flags_run evs st done id :
  run evs = Some (st, done) ->
  cache_flags id done = [] \/ exists k, cache_flags id done = true :: replicate k false.
Proof.
  intros Hrun.
  cut (tasks_ok st done /\
       forall i, cache_flags i done = [] \/
                 exists k, cache_flags i done = true :: replicate k false).
  { intros [_ H]. apply H. }
  clear id. revert evs st done Hrun. apply run_ind.
  - split; [|by left]. split; [intros id t; simpl; by rewrite lookup_empty | done].
  - intros st done ev st' effs [Hok Hflags] Hs.
    split; [by eapply tasks_ok_step|]. intros i.
    unfold cache_flags in *. rewrite attempts_app, fmap_app.
    destruct Hok as [Hin Hout].
    destruct (step_attempts _ _ _ _ i Hs) as [->|[[-> [p ->]]|[[t Ht] [p ->]]]].
    + rewrite app_nil_r. apply Hflags.
    + rewrite Hout by done. right. by exists 0%nat.
    + destruct (Hin _ _ Ht) as (_ & _ & Hne).
      destruct (Hflags i) as [Hnil|[k Hk]].
      * by destruct (attempts i done).
      * right. exists (S k). by rewrite Hk, replicate_S_end.
Qed.

(** *** The counter of running tasks *)

(** As long as fewer than [2^53] calls have been made, [runningTasks]
    is the number of calls of [_write] that have not returned. *)
Definition counter_ok (st : State) : Prop :=
  (size (tasks st) <= calls st)%nat /\
  (Z.of_nat (calls st) <= 2 ^ 53 -> runningTasks st = Z.of_nat (size (tasks st))).

Lemma counter_ok_step st done ev st' effs :
  tasks_ok st done -> counter_ok st -> step st ev = Some (st', effs) -> counter_ok st'.
Proof.
  intros [Hin Hout] [Hsz Hcnt] Hs. unfold counter_ok.
  destruct ev as [request|i r|i e u|i|]; simpl in Hs.
  - inversion Hs; subst; clear Hs. simpl.
    assert (tasks st !! calls st = None) as Hfresh.
    { destruct (tasks st !! calls st) eqn:Ht; [|done].
      destruct (Hin _ _ Ht). lia. }
    rewrite map_size_insert_None by done. split; [lia|].
    intros Hc. rewrite Hcnt by lia. unfold number_inc.
    destruct (2 ^ 53 <=? _) eqn:Hb; lia.
  - destruct (tasks st !! i) as [[p r0 [|]]|] eqn:Ht; try done.
    assert (st' = {| receivedFinal := receivedFinal st;
                     runningTasks := number_dec (runningTasks st);
                     tasks := delete i (tasks st); calls := calls st |})
      as -> by (destruct (isDownloadProcessError r); by inversion Hs).
    simpl. rewrite map_size_delete, Ht.
    assert (size (tasks st) <> 0%nat) as Hpos.
    { apply map_size_ne_0_lookup. by eexists _, _. }
    split; [lia|]. intros Hc. rewrite Hcnt by done. unfold number_dec.
    destruct (_ <=? - 2 ^ 53) eqn:Hb; lia.
  - destruct (tasks st !! i) as [[p r0 [|]]|] eqn:Ht; try done.
    inversion Hs; subst; clear Hs. simpl.
    rewrite map_size_insert_Some by by eexists. by split.
  - destruct (tasks st !! i) as [[p r0 [|]]|] eqn:Ht; try done.
    destruct (Hin _ _ Ht) as (_ & Hr & _). simpl in Hr.
    unfold loop_head in Hs. destruct (r0 <? 5) eqn:Hlt5; [|lia].
    inversion Hs; subst; clear Hs. simpl.
    rewrite map_size_insert_Some by by eexists. by split.
  - inversion Hs; subst; clear Hs. simpl. by split.
Qed.

Lemma counter_ok_run evs st done : run evs = Some (st, done) -> counter_ok st.
Proof.
  intros Hrun.
  cut (tasks_ok st done /\ counter_ok st); [by intros [_ ?]|].
  revert evs st done Hrun. apply run_ind.
  - split; [split; [intros id t; simpl; by rewrite lookup_empty | done]|].
    split; simpl; [by rewrite map_size_empty | by rewrite map_size_empty].
  - intros st done ev st' effs [Hok Hc] Hs.
    split; [by eapply tasks_ok_step | by eapply counter_ok_step].
Qed.

(** *** A request whose worker task throws each time *)

Definition quiet (eff : Effect) : Prop :=
  is_push eff = false /\ is_sentinel eff = false.

Lemma exec_failing id e randoms : forall st done p r,
  tasks st !! id = Some {| params := p; retry := r; waiting := AwaitRun |} ->
  r <= 0 ->
  exists st' p' r',
    exec (failing id e randoms) st done =
      Some (st', done ++ flat_map (fun u => [SetTimeout id (delay u);
                                             Run id (set_useCache false p)]) randoms) /\
    tasks st' !! id = Some {| params := p'; retry := r'; waiting := AwaitRun |} /\
    r' <= 0 /\
    receivedFinal st' = receivedFinal st /\
    runningTasks st' = runningTasks st.
Proof.
  induction randoms as [|u randoms IH]; intros st done p r Ht Hr; simpl.
  - exists st, p, r. by rewrite app_nil_r.
  - rewrite Ht. simpl. rewrite lookup_insert_eq.
    pose proof (number_dec_le r) as Hdec.
    unfold loop_head. destruct (number_dec r <? 5) eqn:Hlt; [|lia]. simpl.
    match goal with
    | |- context [exec _ ?s ?d] =>
        destruct (IH s d (set_useCache false p) (number_dec r))
          as (st' & p' & r' & Hex & Ht' & Hr' & Hf & Hn)
    end.
    + simpl. by rewrite lookup_insert_eq.
    + lia.
    + exists st', p', r'. split; [|done].
      rewrite Hex. f_equal. f_equal. by rewrite <- !app_assoc.
Qed.

(** C1, on the code: a request whose worker task throws on every attempt
    is handed to the worker again after every failure, however many there
    have been ([retry] only goes down from 0, so [retry < 5] stays true):
    after [n] failures there have been [n + 1] attempts, the call of
    [_write] waits for the next one, [runningTasks] still counts it and
    nothing has been pushed downstream, neither a record nor the
    sentinel.  With 5 failures that is a sixth attempt. *)
Theorem retry_never_exhausted (request : DownloadRequest) (e : Thrown)
    (randoms : list float) :
  exists st done,
    run (Write request :: failing 0 e randoms) = Some (st, done) /\
    length (attempts 0 done) = S (length randoms) /\
    (exists t, tasks st !! 0%nat = Some t /\ waiting t = AwaitRun /\ retry t < 5) /\
    runningTasks st = 1 /\
    Forall quiet done.
Proof.
  unfold run. simpl.
  edestruct (exec_failing 0 e randoms) as (st' & p' & r' & Hex & Ht' & Hr' & Hf & Hn);
    [ | | exists st'; eexists; split; [exact Hex|] ].
  - simpl. apply lookup_insert_eq.
  - lia.
  - simpl in Hn. clear Hex. split; [|split; [|split; [done|]]].
    + simpl. f_equal. generalize (set_useCache false (set_useCache true request)).
      intros p. induction randoms as [|u us IHus]; [done|].
      simpl. by rewrite IHus.
    + eexists. split; [exact Ht'|]. simpl. split; [done | lia].
    + repeat constructor. generalize (set_useCache false (set_useCache true request)).
      intros p. induction randoms as [|u us IHus]; [constructor|].
      simpl. by repeat constructor.
Qed.

(** *** The end-of-stream sentinel *)

(** Membership of the sentinel in an explicit list of other effects. *)
Ltac no_sentinel H :=
  repeat (apply elem_of_cons in H as [H|H]; [discriminate H|]);
  by apply elem_of_nil in H.

(** The sentinel is pushed by no other turn than the completion of a task
    after [_final], and by then no call of [_write] is pending. *)
Lemma sentinel_only_after_final_and_drain evs st done ev st' effs :
  run evs = Some (st, done) ->
  step st ev = Some (st', effs) ->
  PushNull ∈ effs ->
  (exists id downloadResult, ev = Resolved id downloadResult) /\
  receivedFinal st = true /\
  runningTasks st' = 0 /\
  (Z.of_nat (calls st) <= 2 ^ 53 -> tasks st' = ∅).
Proof.
  intros Hrun Hs Hin.
  pose proof (tasks_ok_run _ _ _ Hrun) as Hok.
  pose proof (counter_ok_step _ _ _ _ _ Hok (counter_ok_run _ _ _ Hrun) Hs) as [_ Hcnt].
  destruct ev as [request|i r|i e u|i|]; simpl in Hs.
  - inversion Hs; subst. no_sentinel Hin.
  - destruct (tasks st !! i) as [[p r0 [|]]|] eqn:Ht; try done.
    assert (st' = {| receivedFinal := receivedFinal st;
                     runningTasks := number_dec (runningTasks st);
                     tasks := delete i (tasks st); calls := calls st |} /\
            effs = push_result (number_dec (runningTasks st)) (receivedFinal st) r)
      as [-> ->] by (destruct (isDownloadProcessError r); by inversion Hs).
    simpl in *. unfold push_result in Hin.
    destruct (number_dec (runningTasks st) =? 0) eqn:Hz;
      destruct (receivedFinal st) eqn:Hf; simpl in Hin; try no_sentinel Hin.
    split; [by eexists _, _|]. split; [done|]. split; [lia|].
    intros Hc. apply map_size_empty_inv. specialize (Hcnt Hc). lia.
  - destruct (tasks st !! i) as [[p r0 [|]]|]; try done.
    inversion Hs; subst. no_sentinel Hin.
  - destruct (tasks st !! i) as [[p r0 [|]]|]; try done.
    unfold loop_head in Hs. destruct (r0 <? 5); inversion Hs; subst; no_sentinel Hin.
  - inversion Hs; subst. no_sentinel Hin.
Qed.

(** Once the upstream has ended and no call of [_write] is pending, no
    later turn other than a new call of [_write] pushes anything. *)
Lemma drained_stays_silent later : forall st done st' done',
  tasks st = ∅ ->
  Forall (fun ev => is_write ev = false) later ->
  exec later st done = Some (st', done') ->
  receivedFinal st = true ->
  PushNull ∉ done ->
  tasks st' = ∅ /\ receivedFinal st' = true /\
  runningTasks st' = runningTasks st /\ PushNull ∉ done'.
Proof.
  induction later as [|ev later IH]; intros st done st' done' Hempty Hnw Hex Hf Hno.
  - simpl in Hex. by inversion Hex; subst.
  - inversion Hnw as [|? ? Hev Hnw']; subst. simpl in Hex.
    destruct ev as [request|i r|i e u|i|]; simpl in Hev, Hex; try done;
      try (rewrite Hempty, lookup_empty in Hex; done).
    apply IH in Hex; try done.
    intros Hin. apply elem_of_app in Hin as [Hin|Hin]; [done | no_sentinel Hin].
Qed.

(** C2, on the code: when the last pending download completes before
    the upstream ends, [_final] finds [runningTasks] at 0, sets
    [receivedFinal] and returns; from then on the flag is set and the
    counter is 0, and the sentinel is not pushed, whatever follows short
    of a new call of [_write]. *)
Theorem sentinel_missing_when_final_comes_last (request : DownloadRequest)
    (downloadResult : DownloadQueryBase) (later : list Event) st done :
  Forall (fun ev => is_write ev = false) later ->
  run ([Write request; Resolved 0 downloadResult; Final] ++ later) = Some (st, done) ->
  receivedFinal st = true /\ runningTasks st = 0 /\ tasks st = ∅ /\ PushNull ∉ done.
Proof.
  intros Hnw Hrun. unfold run in Hrun. rewrite exec_app in Hrun.
  simpl in Hrun. rewrite lookup_insert_eq in Hrun.
  assert (exists st3 done3, exec later st3 done3 = Some (st, done) /\
            tasks st3 = ∅ /\ receivedFinal st3 = true /\ runningTasks st3 = 0 /\
            PushNull ∉ done3) as (st3 & done3 & Hex & Ht & Hf & Hn & Hno).
  { destruct (isDownloadProcessError downloadResult); simpl in Hrun;
      (eexists _, _; split; [exact Hrun|]; simpl;
       split; [by rewrite delete_insert_eq, delete_empty|];
       split; [done|]; split; [done|]; intros Hin; no_sentinel Hin). }
  destruct (drained_stays_silent _ _ _ _ _ Ht Hnw Hex Hf Hno) as (? & ? & Hsame & ?).
  repeat split; try done. lia.
Qed.

(** *** The cache flag of the attempts *)

(** C7: of the requests one call of [_write] hands to the worker, in
    whatever way the calls and the settling of their promises interleave,
    the first has [useCache = true] and every later one [useCache = false]. *)
Theorem first_attempt_cached_retries_not evs st done id first retries :
  run evs = Some (st, done) ->
  attempts id done = first :: retries ->
  useCache first = true /\ Forall (fun p => useCache p = false) retries.
Proof.
  intros Hrun Hatt.
  destruct (cache_flags_run _ _ _ id Hrun) as [Hnil|[k Hk]];
    unfold cache_flags in *; rewrite Hatt in *; simpl in *; [done|].
  injection Hk as Hfirst Hrest. split; [done|].
  clear Hatt. revert k Hrest. induction retries as [|p ps IH]; intros k Hrest.
  - constructor.
  - destruct k as [|k]; simpl in Hrest; [done|].
    injection Hrest as Hp Hps. constructor; [done | by eapply IH].
Qed.

(** *** Further properties of the event loop *)

(** The results pushed downstream, the answers of the worker and the
    requests written, each in the order of their events. *)
Definition pushed (effs : list Effect) : list DownloadQueryBase :=
  omap (fun e => match e with Push item => Some item | _ => None end) effs.

Definition answers (evs : list Event) : list DownloadQueryBase :=
  omap (fun ev => match ev with Resolved _ r => Some r | _ => None end) evs.

Definition written (evs : list Event) : list DownloadRequest :=
  omap (fun ev => match ev with Write request => Some request | _ => None end) evs.

Definition sentinels (effs : list Effect) : nat :=
  length (filter (fun e => is_sentinel e = true) effs).

Definition is_final (ev : Event) : bool :=
  match ev with Final => true | _ => false end.

(** The order a Writable keeps towards [_write] and [_final]: no call of
    [_write] once [_final] has been called. *)
Fixpoint orderly (final_seen : bool) (evs : list Event) : bool :=
  match evs with
  | [] => true
  | ev :: rest =>
      if is_write ev then negb final_seen && orderly final_seen rest
      else orderly (final_seen || is_final ev) rest
  end.

(** Induction along a run that keeps the events in sight. *)
Lemma run_ind_events (P : list Event -> State -> list Effect -> Prop) :
  P [] init [] ->
  (forall evs st done ev st' effs,
      run evs = Some (st, done) -> P evs st done ->
      step st ev = Some (st', effs) -> P (evs ++ [ev]) st' (done ++ effs)) ->
  forall evs st done, run evs = Some (st, done) -> P evs st done.
Proof.
  intros Hinit Hstep evs. induction evs as [|ev evs IH] using rev_ind;
    intros st done Hrun.
  - by inversion Hrun; subst.
  - unfold run in Hrun. rewrite exec_app in Hrun.
    destruct (exec evs init []) as [[st0 done0]|] eqn:Hex; [|done].
    simpl in Hrun. destruct (step st0 ev) as [[st1 effs]|] eqn:Hs; [|done].
    inversion Hrun; subst. eapply Hstep; [exact Hex | by apply IH | exact Hs].
Qed.

Lemma step_pushed st ev st' effs :
  step st ev = Some (st', effs) -> pushed effs = answers [ev].
Proof.
  intros Hs. destruct ev as [request|i r|i e u|i|]; simpl in Hs.
  - unfold loop_head in Hs. simpl in Hs. by inversion Hs.
  - destruct (tasks st !! i) as [[p r0 [|]]|]; try done.
    destruct (isDownloadProcessError r); inversion Hs; subst;
      unfold push_result; by destruct (_ && _).
  - destruct (tasks st !! i) as [[p r0 [|]]|]; try done. by inversion Hs.
  - destruct (tasks st !! i) as [[p r0 [|]]|]; try done.
    unfold loop_head in Hs. by destruct (r0 <? 5); inversion Hs.
  - by inversion Hs.
Qed.

(** What the worker answers is pushed downstream, each answer once, in
    the order in which the downloads complete, and nothing else is. *)
Theorem pushed_in_completion_order evs st done :
  run evs = Some (st, done) -> pushed done = answers evs.
Proof.
  revert evs st done. apply run_ind_events; [done|].
  intros evs st done ev st' effs _ IH Hs. unfold pushed, answers in *.
  rewrite !omap_app, IH. f_equal. by eapply step_pushed.
Qed.

(** The counter [runningTasks] is the number of calls of [_write] that
    have not returned, as long as fewer than [2^53] calls were made. *)
Theorem runningTasks_counts_pending evs st done :
  run evs = Some (st, done) ->
  Z.of_nat (calls st) <= 2 ^ 53 ->
  runningTasks st = Z.of_nat (size (tasks st)).
Proof. intros Hrun. by apply (counter_ok_run _ _ _ Hrun). Qed.

(** A call of [_write] returns only when the worker has answered it: the
    loop is never left because the retries are used up, and a rejection or
    a timer keeps the call pending. *)
Theorem pending_until_answered evs st done ev st' effs id :
  run evs = Some (st, done) ->
  step st ev = Some (st', effs) ->
  is_Some (tasks st !! id) ->
  tasks st' !! id = None ->
  exists downloadResult, ev = Resolved id downloadResult.
Proof.
  intros Hrun Hs [t Ht] Hgone.
  destruct (tasks_ok_run _ _ _ Hrun) as [Hin _].
  destruct ev as [request|i r|i e u|i|]; simpl in Hs.
  - inversion Hs; subst; clear Hs. simpl in Hgone.
    rewrite lookup_insert in Hgone. case_decide; [done | congruence].
  - destruct (tasks st !! i) as [[p r0 [|]]|] eqn:Hi; try done.
    assert (tasks st' = delete i (tasks st)) as Heq
      by (destruct (isDownloadProcessError r); by inversion Hs).
    rewrite Heq, lookup_delete in Hgone. case_decide; [subst; by eexists | congruence].
  - destruct (tasks st !! i) as [[p r0 [|]]|] eqn:Hi; try done.
    inversion Hs; subst; clear Hs. simpl in Hgone.
    rewrite lookup_insert in Hgone. case_decide; [done | congruence].
  - destruct (tasks st !! i) as [[p r0 [|]]|] eqn:Hi; try done.
    destruct (Hin _ _ Hi) as (_ & Hr & _). simpl in Hr.
    unfold loop_head in Hs. destruct (r0 <? 5) eqn:Hlt; [|lia].
    inversion Hs; subst; clear Hs. simpl in Hgone.
    rewrite lookup_insert in Hgone. case_decide; [done | congruence].
  - inversion Hs; subst. simpl in Hgone. congruence.
Qed.

(** When the upstream has ended and one download is still pending, its
    completion pushes the result and then the sentinel. *)
Theorem last_completion_ends_stream evs st done id t downloadResult :
  run evs = Some (st, done) ->
  receivedFinal st = true ->
  tasks st = {[ id := t ]} ->
  waiting t = AwaitRun ->
  Z.of_nat (calls st) <= 2 ^ 53 ->
  exists st',
    step st (Resolved id downloadResult) = Some (st', [Push downloadResult; PushNull]) /\
    tasks st' = ∅ /\ runningTasks st' = 0.
Proof.
  intros Hrun Hf Ht Hw Hc.
  pose proof (runningTasks_counts_pending _ _ _ Hrun Hc) as Hn.
  rewrite Ht, map_size_singleton in Hn.
  simpl. rewrite Ht, lookup_singleton_eq. destruct t as [p r w]. simpl in Hw. subst w.
  rewrite Hn, Hf. change (number_dec (Z.of_nat 1)) with 0.
  eexists. split.
  - by destruct (isDownloadProcessError downloadResult).
  - simpl. split; [apply delete_singleton_eq | done].
Qed.

Lemma sentinels_app effs1 effs2 :
  sentinels (effs1 ++ effs2) = (sentinels effs1 + sentinels effs2)%nat.
Proof. unfold sentinels. by rewrite filter_app, length_app. Qed.

Lemma step_flags st ev st' effs :
  step st ev = Some (st', effs) ->
  receivedFinal st' = receivedFinal st || is_final ev /\
  calls st' = (calls st + (if is_write ev then 1 else 0))%nat.
Proof.
  intros Hs. destruct ev as [request|i r|i e u|i|]; simpl in Hs.
  - inversion Hs; subst. simpl. rewrite orb_false_r. split; [done | lia].
  - destruct (tasks st !! i) as [[p r0 [|]]|]; try done.
    destruct (isDownloadProcessError r); inversion Hs; subst; simpl;
      rewrite orb_false_r; (split; [done | lia]).
  - destruct (tasks st !! i) as [[p r0 [|]]|]; try done.
    inversion Hs; subst. simpl. rewrite orb_false_r. split; [done | lia].
  - destruct (tasks st !! i) as [[p r0 [|]]|]; try done.
    unfold loop_head in Hs. destruct (r0 <? 5); inversion Hs; subst; simpl;
      rewrite orb_false_r; (split; [done | lia]).
  - inversion Hs; subst. simpl. rewrite orb_true_r. split; [done | lia].
Qed.

Lemma step_sentinel st done ev st' effs :
  tasks_ok st done -> counter_ok st ->
  step st ev = Some (st', effs) ->
  sentinels effs = 0%nat \/
  (sentinels effs = 1%nat /\ receivedFinal st = true /\
   (Z.of_nat (calls st) <= 2 ^ 53 -> tasks st' = ∅)).
Proof.
  intros Hok Hc Hs.
  pose proof (counter_ok_step _ _ _ _ _ Hok Hc Hs) as [_ Hcnt].
  destruct ev as [request|i r|i e u|i|]; simpl in Hs.
  - inversion Hs; subst. by left.
  - destruct (tasks st !! i) as [[p r0 [|]]|] eqn:Ht; try done.
    assert (st' = {| receivedFinal := receivedFinal st;
                     runningTasks := number_dec (runningTasks st);
                     tasks := delete i (tasks st); calls := calls st |} /\
            effs = push_result (number_dec (runningTasks st)) (receivedFinal st) r)
      as [-> ->] by (destruct (isDownloadProcessError r); by inversion Hs).
    simpl in *. unfold push_result.
    destruct (number_dec (runningTasks st) =? 0) eqn:Hz;
      destruct (receivedFinal st) eqn:Hf; simpl; try by left.
    right. split; [done|]. split; [done|].
    intros Hle. apply map_size_empty_inv. specialize (Hcnt Hle). lia.
  - destruct (tasks st !! i) as [[p r0 [|]]|]; try done. inversion Hs; subst. by left.
  - destruct (tasks st !! i) as [[p r0 [|]]|]; try done.
    unfold loop_head in Hs. destruct (r0 <? 5); inversion Hs; subst; by left.
  - inversion Hs; subst. by left.
Qed.

Lemma step_drained st ev st' effs :
  tasks st = ∅ -> is_write ev = false ->
  step st ev = Some (st', effs) ->
  tasks st' = ∅ /\ sentinels effs = 0%nat.
Proof.
  intros Hempty Hev Hs.
  destruct ev as [request|i r|i e u|i|]; simpl in Hev, Hs; try done;
    try (rewrite Hempty, lookup_empty in Hs; done).
  by inversion Hs; subst.
Qed.

Lemma exec_sentinels evs : forall st0 done0 st done,
  tasks_ok st0 done0 -> counter_ok st0 ->
  orderly (receivedFinal st0) evs = true ->
  Z.of_nat (calls st0 + length evs) <= 2 ^ 53 ->
  sentinels done0 = 0%nat \/
    (sentinels done0 = 1%nat /\ tasks st0 = ∅ /\ receivedFinal st0 = true) ->
  exec evs st0 done0 = Some (st, done) ->
  sentinels done = 0%nat \/
    (sentinels done = 1%nat /\ tasks st = ∅ /\ receivedFinal st = true).
Proof.
  induction evs as [|ev rest IH]; intros st0 done0 st done Hok Hc Hord Hlen Hsent Hex.
  - simpl in Hex. by inversion Hex; subst.
  - simpl in Hex. destruct (step st0 ev) as [[st1 effs]|] eqn:Hs; [|done].
    destruct (step_flags _ _ _ _ Hs) as [Hf1 Hc1].
    eapply IH in Hex; [exact Hex | by eapply tasks_ok_step | by eapply counter_ok_step | | | ].
    + simpl in Hord. rewrite Hf1. destruct (is_write ev) eqn:Hw.
      * apply andb_true_iff in Hord as [_ Hord].
        destruct ev; try done. simpl. by rewrite orb_false_r.
      * done.
    + rewrite Hc1. simpl in Hlen. destruct (is_write ev); lia.
    + rewrite sentinels_app. destruct Hsent as [H0|(H1 & Hempty & Hfin)].
      * destruct (step_sentinel _ _ _ _ _ Hok Hc Hs) as [He|(He & Hfin & Hdrain)].
        -- left. lia.
        -- right. split; [lia|]. split.
           ++ apply Hdrain. simpl in Hlen. lia.
           ++ rewrite Hf1, Hfin. done.
      * assert (is_write ev = false) as Hw.
        { simpl in Hord. rewrite Hfin in Hord. by destruct (is_write ev). }
        destruct (step_drained _ _ _ _ Hempty Hw Hs) as [Hempty' He].
        right. split; [lia|]. split; [done|]. rewrite Hf1, Hfin. done.
Qed.

(** When the upstream keeps the order of a Writable (no [_write] after
    [_final]), the sentinel is pushed at most once, and once it has been
    pushed nothing is pending. *)
Theorem sentinel_at_most_once evs st done :
  orderly false evs = true ->
  Z.of_nat (length evs) <= 2 ^ 53 ->
  run evs = Some (st, done) ->
  (sentinels done <= 1)%nat /\
  (sentinels done = 1%nat -> tasks st = ∅ /\ receivedFinal st = true).
Proof.
  intros Hord Hlen Hrun.
  assert (tasks_ok init []) as Hok
    by (split; [intros id t; simpl; by rewrite lookup_empty | done]).
  assert (counter_ok init) as Hc
    by (split; simpl; [by rewrite map_size_empty | by rewrite map_size_empty]).
  assert (sentinels [] = 0%nat \/
          (sentinels [] = 1%nat /\ tasks init = ∅ /\ receivedFinal init = true))
    as Hstart by (by left).
  destruct (exec_sentinels evs init [] st done Hok Hc Hord Hlen Hstart Hrun)
    as [H0|(H1 & Hempty & Hfin)].
  - split; [lia|]. intros. lia.
  - split; [lia|]. done.
Qed.

Lemma written_app evs1 evs2 : written (evs1 ++ evs2) = written evs1 ++ written evs2.
Proof. apply omap_app. Qed.

(** Every request handed to the worker carries the data of the request
    that was written; only [useCache] is ever changed. *)
Theorem attempts_keep_request_data evs st done id request p :
  run evs = Some (st, done) ->
  written evs !! id = Some request ->
  p ∈ attempts id done ->
  data p = data request.
Proof.
  intros Hrun.
  cut (calls st = length (written evs) /\
       (forall i t, tasks st !! i = Some t ->
          exists req, written evs !! i = Some req /\ data (params t) = data req) /\
       (forall i q, q ∈ attempts i done ->
          exists req, written evs !! i = Some req /\ data q = data req)).
  { intros (_ & _ & H) Hw Hp. destruct (H _ _ Hp) as (req & Hreq & Hd). congruence. }
  clear id request p. revert evs st done Hrun. apply run_ind_events.
  - split; [done|]. split; [intros i t; simpl; by rewrite lookup_empty|].
    intros i q Hq. by apply elem_of_nil in Hq.
  - intros evs st done ev st' effs _ (Hcalls & Htasks & Hatt) Hs.
    rewrite written_app.
    assert (forall i q, q ∈ attempts i done ->
              exists req, (written evs ++ written [ev]) !! i = Some req /\
                          data q = data req) as Hatt'.
    { intros i q Hq. destruct (Hatt _ _ Hq) as (req & Hreq & Hd).
      exists req. split; [by apply lookup_app_l_Some | done]. }
    assert (forall i t, tasks st !! i = Some t ->
              exists req, (written evs ++ written [ev]) !! i = Some req /\
                          data (params t) = data req) as Htasks'.
    { intros i t Ht. destruct (Htasks _ _ Ht) as (req & Hreq & Hd).
      exists req. split; [by apply lookup_app_l_Some | done]. }
    destruct ev as [request|i r|i e u|i|]; simpl in Hs.
    + inversion Hs; subst; clear Hs. simpl. split; [|split].
      * rewrite length_app. simpl. lia.
      * intros i t. rewrite lookup_insert. case_decide as Hi.
        -- intros [= <-]. subst i. exists request. split; [|done].
           rewrite Hcalls. by rewrite list_lookup_middle.
        -- apply Htasks'.
      * intros i q. rewrite attempts_app, elem_of_app. intros [Hq|Hq]; [by apply Hatt'|].
        simpl in Hq. case_decide as Hi; [|by apply elem_of_nil in Hq].
        apply list_elem_of_singleton in Hq. subst i q. exists request. split; [|done].
        rewrite Hcalls. by rewrite list_lookup_middle.
    + destruct (tasks st !! i) as [[p r0 [|]]|] eqn:Hi; try done.
      assert (st' = {| receivedFinal := receivedFinal st;
                       runningTasks := number_dec (runningTasks st);
                       tasks := delete i (tasks st); calls := calls st |} /\
              effs = push_result (number_dec (runningTasks st)) (receivedFinal st) r)
        as [-> ->] by (destruct (isDownloadProcessError r); by inversion Hs).
      simpl. split; [by rewrite app_nil_r|]. split.
      * intros j t. rewrite lookup_delete. case_decide; [done | apply Htasks'].
      * intros j q. rewrite attempts_app.
        assert (attempts j (push_result (number_dec (runningTasks st))
                              (receivedFinal st) r) = []) as ->
          by (unfold push_result; by destruct (_ && _)).
        rewrite app_nil_r. apply Hatt'.
    + destruct (tasks st !! i) as [[p r0 [|]]|] eqn:Hi; try done.
      inversion Hs; subst; clear Hs. simpl. split; [by rewrite app_nil_r|]. split.
      * intros j t. rewrite lookup_insert. case_decide as Hj; [|apply Htasks'].
        intros [= <-]. subst j. apply (Htasks' _ _ Hi).
      * intros j q. rewrite attempts_app. simpl. rewrite app_nil_r. apply Hatt'.
    + destruct (tasks st !! i) as [[p r0 [|]]|] eqn:Hi; try done.
      destruct (Htasks' _ _ Hi) as (req & Hreq & Hd). simpl in Hd.
      unfold loop_head in Hs. destruct (r0 <? 5); inversion Hs; subst; clear Hs; simpl.
      * split; [by rewrite app_nil_r|]. split.
        -- intros j t. rewrite lookup_insert. case_decide as Hj; [|apply Htasks'].
           intros [= <-]. subst j. by exists req.
        -- intros j q. rewrite attempts_app, elem_of_app. intros [Hq|Hq]; [by apply Hatt'|].
           simpl in Hq. case_decide as Hj; [|by apply elem_of_nil in Hq].
           apply list_elem_of_singleton in Hq. subst j q. by exists req.
      * split; [by rewrite app_nil_r|]. split.
        -- intros j t. rewrite lookup_delete. case_decide; [done | apply Htasks'].
        -- intros j q. rewrite attempts_app. simpl. rewrite app_nil_r. apply Hatt'.
    + inversion Hs; subst; clear Hs. simpl. split; [by rewrite app_nil_r|]. split.
      * apply Htasks'.
      * intros j q. rewrite attempts_app. simpl. rewrite app_nil_r. apply Hatt'.
Qed.

End DownloadTransform.

Arguments mkRequest {RequestData} data useCache.
Arguments Write {RequestData DownloadQueryBase Thrown} request.
Arguments Resolved {RequestData DownloadQueryBase Thrown} task downloadResult.
Arguments Rejected {RequestData DownloadQueryBase Thrown} task e random.
Arguments TimerFired {RequestData DownloadQueryBase Thrown} task.
Arguments Final {RequestData DownloadQueryBase Thrown}.
Arguments PushNull {RequestData DownloadQueryBase}.
Arguments run {RequestData DownloadQueryBase} isDownloadProcessError {Thrown} evs.
Arguments attempts {RequestData DownloadQueryBase} id effs.

(** The delay between two attempts, at the ends of the range of
    [Math.random()] (from 0 up to the largest double below 1). *)
Example delay_least : delay 0 = 100%float.
Proof. reflexivity. Qed.

Example delay_greatest :
  PrimFloat.ltb (delay 0x1.fffffffffffffp-1) 5100 = true /\
  PrimFloat.leb 100 (delay 0x1.fffffffffffffp-1) = true.
Proof. split; reflexivity. Qed.

(** *** Two runs with one request *)

(** One request (its data a number, the answer of the worker a number, an
    answer below 0 a [DownloadProcessError]); the worker throws twice. *)
Definition two_failures : list (Event nat Z unit) :=
  [Write (mkRequest 7%nat false);
   Rejected 0 () 0.5%float; TimerFired 0;
   Rejected 0 () 0.25%float; TimerFired 0].

(** One request, answered before the upstream ends. *)
Definition answered_then_final : list (Event nat Z unit) :=
  [Write (mkRequest 7%nat false); Resolved 0 42; Final] ++ [Final].

(** The end of a run, for a run that is known to have one. *)
Definition outcome {A B T : Type} (f : B -> bool) (evs : list (Event A B T))
  : State A * list (Effect A B) :=
  default (init A, []) (run f evs).

Lemma first_attempt_cached_retries_not_witness :
  exists st done,
    run (fun r => r <? 0) two_failures = Some (st, done) /\
    attempts 0 done =
      mkRequest 7%nat true :: [mkRequest 7%nat false; mkRequest 7%nat false] /\
    (useCache _ (mkRequest 7%nat true) = true /\
     Forall (fun p => useCache _ p = false)
            [mkRequest 7%nat false; mkRequest 7%nat false]).
Proof.
  exists (outcome (fun r => r <? 0) two_failures).1,
         (outcome (fun r => r <? 0) two_failures).2.
  assert (run (fun r => r <? 0) two_failures =
          Some ((outcome (fun r => r <? 0) two_failures).1,
                (outcome (fun r => r <? 0) two_failures).2)) as Hrun
    by (vm_compute; reflexivity).
  assert (attempts 0 (outcome (fun r => r <? 0) two_failures).2 =
          mkRequest 7%nat true :: [mkRequest 7%nat false; mkRequest 7%nat false])
    as Hatt by (vm_compute; reflexivity).
  split; [exact Hrun|]. split; [exact Hatt|].
  exact (first_attempt_cached_retries_not _ _ _ _ _ _ _ 0%nat _ _ Hrun Hatt).
Defined.

Lemma sentinel_missing_when_final_comes_last_witness :
  exists st done,
    Forall (fun ev : Event nat Z unit => is_write _ _ _ ev = false) [Final] /\
    run (fun r => r <? 0) answered_then_final = Some (st, done) /\
    (receivedFinal _ st = true /\ runningTasks _ st = 0 /\ tasks _ st = ∅ /\
     PushNull ∉ done).
Proof.
  exists (outcome (fun r => r <? 0) answered_then_final).1,
         (outcome (fun r => r <? 0) answered_then_final).2.
  assert (Forall (fun ev : Event nat Z unit => is_write _ _ _ ev = false) [Final])
    as Hnw by (repeat constructor).
  assert (run (fun r => r <? 0) answered_then_final =
          Some ((outcome (fun r => r <? 0) answered_then_final).1,
                (outcome (fun r => r <? 0) answered_then_final).2)) as Hrun
    by (vm_compute; reflexivity).
  split; [exact Hnw|]. split; [exact Hrun|].
  exact (sentinel_missing_when_final_comes_last _ _ _ _ _ _ _ _ _ Hnw Hrun).
Defined.

(** *** Runs with two requests *)

(** Two requests; the second is answered first, the first fails once and
    is answered after the upstream has ended. *)
Definition interleaved : list (Event nat Z unit) :=
  [Write (mkRequest 7%nat false); Write (mkRequest 8%nat true);
   Resolved 1 5; Rejected 0 () 0.5%float; TimerFired 0; Final; Resolved 0 9].

(** The same run up to the last answer. *)
Definition before_last_answer : list (Event nat Z unit) :=
  [Write (mkRequest 7%nat false); Write (mkRequest 8%nat true);
   Resolved 1 5; Rejected 0 () 0.5%float; TimerFired 0; Final].

Definition negative (r : Z) : bool := r <? 0.

Definition state_after (evs : list (Event nat Z unit)) : State nat :=
  (outcome negative evs).1.

Definition effects_of (evs : list (Event nat Z unit)) : list (Effect nat Z) :=
  (outcome negative evs).2.

Lemma run_interleaved :
  run negative interleaved = Some (state_after interleaved, effects_of interleaved).
Proof. vm_compute. reflexivity. Qed.

Lemma run_before_last_answer :
  run negative before_last_answer =
  Some (state_after before_last_answer, effects_of before_last_answer).
Proof. vm_compute. reflexivity. Qed.

Lemma sentinel_only_after_final_and_drain_witness :
  run negative before_last_answer =
    Some (state_after before_last_answer, effects_of before_last_answer) /\
  step nat Z negative unit (state_after before_last_answer) (Resolved 0 9) =
    Some (state_after interleaved, [Push nat Z 9; PushNull]) /\
  PushNull ∈ [Push nat Z 9; PushNull] /\
  ((exists id downloadResult,
      Resolved (RequestData := nat) (Thrown := unit) 0 9 = Resolved id downloadResult) /\
   receivedFinal nat (state_after before_last_answer) = true /\
   runningTasks nat (state_after interleaved) = 0 /\
   (Z.of_nat (calls nat (state_after before_last_answer)) <= 2 ^ 53 ->
    tasks nat (state_after interleaved) = ∅)).
Proof.
  assert (step nat Z negative unit (state_after before_last_answer) (Resolved 0 9) =
          Some (state_after interleaved, [Push nat Z 9; PushNull])) as Hs
    by (vm_compute; reflexivity).
  assert (PushNull ∈ [Push nat Z 9; PushNull]) as Hin by (right; left).
  split; [exact run_before_last_answer|]. split; [exact Hs|]. split; [exact Hin|].
  exact (sentinel_only_after_final_and_drain _ _ _ _ _ _ _ _ _ _
           run_before_last_answer Hs Hin).
Defined.

Lemma pushed_in_completion_order_witness :
  run negative interleaved = Some (state_after interleaved, effects_of interleaved) /\
  pushed nat Z (effects_of interleaved) = answers nat Z unit interleaved /\
  answers nat Z unit interleaved = [5; 9].
Proof.
  split; [exact run_interleaved|]. split; [|reflexivity].
  exact (pushed_in_completion_order _ _ _ _ _ _ _ run_interleaved).
Defined.

Lemma runningTasks_counts_pending_witness :
  run negative before_last_answer =
    Some (state_after before_last_answer, effects_of before_last_answer) /\
  Z.of_nat (calls nat (state_after before_last_answer)) <= 2 ^ 53 /\
  runningTasks nat (state_after before_last_answer) =
    Z.of_nat (size (tasks nat (state_after before_last_answer))).
Proof.
  assert (Z.of_nat (calls nat (state_after before_last_answer)) <= 2 ^ 53) as Hc
    by (vm_compute; discriminate).
  split; [exact run_before_last_answer|]. split; [exact Hc|].
  exact (runningTasks_counts_pending _ _ _ _ _ _ _ run_before_last_answer Hc).
Defined.

Lemma pending_until_answered_witness :
  run negative before_last_answer =
    Some (state_after before_last_answer, effects_of before_last_answer) /\
  step nat Z negative unit (state_after before_last_answer) (Resolved 0 9) =
    Some (state_after interleaved, [Push nat Z 9; PushNull]) /\
  is_Some (tasks nat (state_after before_last_answer) !! 0%nat) /\
  tasks nat (state_after interleaved) !! 0%nat = None /\
  exists downloadResult,
    Resolved (RequestData := nat) (Thrown := unit) 0 9 = Resolved 0 downloadResult.
Proof.
  assert (step nat Z negative unit (state_after before_last_answer) (Resolved 0 9) =
          Some (state_after interleaved, [Push nat Z 9; PushNull])) as Hs
    by (vm_compute; reflexivity).
  assert (is_Some (tasks nat (state_after before_last_answer) !! 0%nat)) as Hp
    by (vm_compute; by eexists).
  assert (tasks nat (state_after interleaved) !! 0%nat = None) as Hg
    by (vm_compute; reflexivity).
  split; [exact run_before_last_answer|]. split; [exact Hs|].
  split; [exact Hp|]. split; [exact Hg|].
  exact (pending_until_answered _ _ _ _ _ _ _ _ _ _ _
           run_before_last_answer Hs Hp Hg).
Defined.

Lemma last_completion_ends_stream_witness :
  run negative before_last_answer =
    Some (state_after before_last_answer, effects_of before_last_answer) /\
  receivedFinal nat (state_after before_last_answer) = true /\
  tasks nat (state_after before_last_answer) =
    {[ 0%nat := mkTask nat (mkRequest 7%nat false) (-1) (AwaitRun) ]} /\
  exists st',
    step nat Z negative unit (state_after before_last_answer) (Resolved 0 9) =
      Some (st', [Push nat Z 9; PushNull]) /\
    tasks nat st' = ∅ /\ runningTasks nat st' = 0.
Proof.
  assert (receivedFinal nat (state_after before_last_answer) = true) as Hf by reflexivity.
  assert (tasks nat (state_after before_last_answer) =
          {[ 0%nat := mkTask nat (mkRequest 7%nat false) (-1) (AwaitRun) ]}) as Ht
    by (vm_compute; reflexivity).
  assert (Z.of_nat (calls nat (state_after before_last_answer)) <= 2 ^ 53) as Hc
    by (vm_compute; discriminate).
  split; [exact run_before_last_answer|]. split; [exact Hf|]. split; [exact Ht|].
  exact (last_completion_ends_stream _ _ _ _ _ _ _ 0%nat _ 9
           run_before_last_answer Hf Ht eq_refl Hc).
Defined.

Lemma sentinel_at_most_once_witness :
  orderly nat Z unit false interleaved = true /\
  Z.of_nat (length interleaved) <= 2 ^ 53 /\
  run negative interleaved = Some (state_after interleaved, effects_of interleaved) /\
  sentinels nat Z (effects_of interleaved) = 1%nat /\
  (sentinels nat Z (effects_of interleaved) <= 1)%nat /\
  (sentinels nat Z (effects_of interleaved) = 1%nat ->
   tasks nat (state_after interleaved) = ∅ /\
   receivedFinal nat (state_after interleaved) = true).
Proof.
  assert (orderly nat Z unit false interleaved = true) as Ho by reflexivity.
  assert (Z.of_nat (length interleaved) <= 2 ^ 53) as Hl by (vm_compute; discriminate).
  split; [exact Ho|]. split; [exact Hl|]. split; [exact run_interleaved|].
  split; [vm_compute; reflexivity|].
  exact (sentinel_at_most_once _ _ _ _ _ _ _ Ho Hl run_interleaved).
Defined.

Lemma attempts_keep_request_data_witness :
  run negative interleaved = Some (state_after interleaved, effects_of interleaved) /\
  written nat Z unit interleaved !! 0%nat = Some (mkRequest 7%nat false) /\
  mkRequest 7%nat false ∈ attempts 0 (effects_of interleaved) /\
  data nat (mkRequest 7%nat false) = data nat (mkRequest 7%nat false).
Proof.
  assert (written nat Z unit interleaved !! 0%nat = Some (mkRequest 7%nat false)) as Hw
    by reflexivity.
  assert (mkRequest 7%nat false ∈ attempts 0 (effects_of interleaved)) as Hp
    by (vm_compute; right; left).
  split; [exact run_interleaved|]. split; [exact Hw|]. split; [exact Hp|].
  exact (attempts_keep_request_data _ _ _ _ _ _ _ 0%nat _ _ run_interleaved Hw Hp).
Defined.

End Download.

(** ** The records of the geocoder *)

(** Modelled from the spec: the enumeration [MatchLevel] is declared in the
    domain types, outside the sources embedded here.  The spec gives its
    members in increasing order; [num] is the position in that order and
    [str] the name used in the output. *)
Module MatchLevel.

Inductive t : Type :=
  | UNKNOWN
  | PREFECTURE
  | CITY
  | MACHIAZA
  | MACHIAZA_DETAIL
  | RESIDENTIAL_BLOCK
  | RESIDENTIAL_DETAIL
  | PARCEL.

Definition num (level : t) : Z :=
  match level with
  | UNKNOWN => 0
  | PREFECTURE => 1
  | CITY => 2
  | MACHIAZA => 3
  | MACHIAZA_DETAIL => 4
  | RESIDENTIAL_BLOCK => 5
  | RESIDENTIAL_DETAIL => 6
  | PARCEL => 7
  end.

Definition str (level : t) : Js.jsstring :=
  Js.lit match level with
         | UNKNOWN => "unknown"
         | PREFECTURE => "prefecture"
         | CITY => "city"
         | MACHIAZA => "machiaza"
         | MACHIAZA_DETAIL => "machiaza_detail"
         | RESIDENTIAL_BLOCK => "residential_block"
         | RESIDENTIAL_DETAIL => "residential_detail"
         | PARCEL => "parcel"
         end.

End MatchLevel.

(** Modelled from the spec: a row of the town table ([TownMatchingInfo]),
    with the fields the spec lists for it.  An absent string or number is
    [None]. *)
Module Town.

Record t : Type := mk {
  pref_key : option Z;
  city_key : option Z;
  town_key : option Z;
  rsdt_addr_flg : option Z;
  rep_lat : option float;
  rep_lon : option float;
  koaza : option Js.jsstring;
  pref : option Js.jsstring;
  county : option Js.jsstring;
  city : option Js.jsstring;
  ward : option Js.jsstring;
  lg_code : option Js.jsstring;
  oaza_cho : option Js.jsstring;
  machiaza_id : option Js.jsstring;
  chome : option Js.jsstring;
  key : Js.jsstring
}.

End Town.

(** Modelled from the spec: the record that travels through the pipeline
    ([Query]), with the fields the spec lists and the stages and formatters
    read.  [tempAddress] is the chain of characters still to be matched;
    the chain type [CharNode] is a parameter. *)
Module Query.

Record t (CharNode : Type) : Type := mk {
  input_address : Js.jsstring;
  tempAddress : option CharNode;
  match_level : MatchLevel.t;
  coordinate_level : MatchLevel.t;
  pref_key : option Z;
  city_key : option Z;
  town_key : option Z;
  parcel_key : option Z;
  rsdtblk_key : option Z;
  rsdtdsp_key : option Z;
  lg_code : option Js.jsstring;
  pref : option Js.jsstring;
  county : option Js.jsstring;
  city : option Js.jsstring;
  ward : option Js.jsstring;
  oaza_cho : option Js.jsstring;
  chome : option Js.jsstring;
  koaza : option Js.jsstring;
  machiaza_id : option Js.jsstring;
  block : option Js.jsstring;
  block_id : option Js.jsstring;
  rsdt_num : option Js.jsstring;
  rsdt_id : option Js.jsstring;
  rsdt_num2 : option Js.jsstring;
  rsdt2_id : option Js.jsstring;
  rsdt_addr_flg : option Z;
  prc_num1 : option Js.jsstring;
  prc_num2 : option Js.jsstring;
  prc_num3 : option Js.jsstring;
  prc_id : option Js.jsstring;
  rep_lat : option float;
  rep_lon : option float;
  matchedCnt : Z;
  startTime : float
}.

Arguments mk {CharNode}.
Arguments input_address {CharNode} _.
Arguments tempAddress {CharNode} _.
Arguments match_level {CharNode} _.
Arguments coordinate_level {CharNode} _.
Arguments pref_key {CharNode} _.
Arguments city_key {CharNode} _.
Arguments town_key {CharNode} _.
Arguments parcel_key {CharNode} _.
Arguments rsdtblk_key {CharNode} _.
Arguments rsdtdsp_key {CharNode} _.
Arguments lg_code {CharNode} _.
Arguments pref {CharNode} _.
Arguments county {CharNode} _.
Arguments city {CharNode} _.
Arguments ward {CharNode} _.
Arguments oaza_cho {CharNode} _.
Arguments chome {CharNode} _.
Arguments koaza {CharNode} _.
Arguments machiaza_id {CharNode} _.
Arguments block {CharNode} _.
Arguments block_id {CharNode} _.
Arguments rsdt_num {CharNode} _.
Arguments rsdt_id {CharNode} _.
Arguments rsdt_num2 {CharNode} _.
Arguments rsdt2_id {CharNode} _.
Arguments rsdt_addr_flg {CharNode} _.
Arguments prc_num1 {CharNode} _.
Arguments prc_num2 {CharNode} _.
Arguments prc_num3 {CharNode} _.
Arguments prc_id {CharNode} _.
Arguments rep_lat {CharNode} _.
Arguments rep_lon {CharNode} _.
Arguments matchedCnt {CharNode} _.
Arguments startTime {CharNode} _.

(** Invariant Q1 of the data model: [match_level >= coordinate_level]. *)
Definition Q1 {CharNode : Type} (q : t CharNode) : Prop :=
  MatchLevel.num (coordinate_level q) <= MatchLevel.num (match_level q).

End Query.

(** ** Tokyo23TownTranform: the town stage for the 23 wards of Tokyo *)

Module Tokyo23.
Import Js.

(** A regular expression object: its source and its flags. *)
Record RegExp : Type := mkRegExp {
  source : jsstring;
  flags : jsstring
}.

(** [RegExpEx.create(pattern, flags)] hands out the [RegExp] of a pattern
    (the service keeps one object per pattern). *)
Definition RegExpEx_create (pattern flag : jsstring) : RegExp :=
  {| source := pattern; flags := flag |}.

(** Modelled from the spec: the constant [DASH] of the configuration, the
    hyphen of the spec's [(\d+)-?...] and [\1-]. *)
Definition DASH : jsstring := lit "-".

(** The characters of the class [番号町地丁目] and the character [の]. *)
Definition suffix_class : jsstring := [30058; 21495; 30010; 22320; 19969; 30446]%N.
Definition hiragana_no : jsstring := [12398]%N.

(** The characters [区], [町], [市], [村]. *)
Definition ku : jsstring := [21306]%N.
Definition machi : jsstring := [30010]%N.
Definition shi : jsstring := [24066]%N.
Definition mura : jsstring := [26449]%N.

(** The pattern [`(\\d+)${DASH}?[番号町地丁目]+の?`] with the flag [g], and
    the replacement [`$1${DASH}`]. *)
Definition suffix_pattern : RegExp :=
  RegExpEx_create
    (lit "(\d+)" ++ DASH ++ lit "?[" ++ suffix_class ++ lit "]+" ++ hiragana_no ++ lit "?")
    (lit "g").

Definition suffix_replacement : jsstring := lit "$1" ++ DASH.

(** What [replaceAll] with this pattern and this replacement does to a
    string: at every place, from the left, where one or more digits are
    followed by an optional hyphen, one or more characters of the class
    and an optional [の], that run is replaced by the digits and a hyphen.
    (The quantifiers are greedy, and giving characters back never turns a
    failure at a place into a match, so the longest run at the first place
    is the match.) *)
Definition is_digit (c : N) : bool := ((48 <=? c) && (c <=? 57))%N.

Definition in_suffix_class (c : N) : bool := existsb (N.eqb c) suffix_class.

Fixpoint span (p : N -> bool) (s : jsstring) : jsstring * jsstring :=
  match s with
  | c :: rest =>
      if p c then let '(taken, others) := span p rest in (c :: taken, others)
      else ([], s)
  | [] => ([], [])
  end.

Definition optional (c : N) (s : jsstring) : jsstring :=
  match s with
  | d :: rest => if (d =? c)%N then rest else s
  | [] => s
  end.

(** A match at the head of [s]: the digits of group 1 and what follows
    the match. *)
Definition match_suffix (s : jsstring) : option (jsstring * jsstring) :=
  let '(digits, s1) := span is_digit s in
  match digits with
  | [] => None
  | _ :: _ =>
      let '(marks, s2) := span in_suffix_class (optional 45 s1) in
      match marks with
      | [] => None
      | _ :: _ => Some (digits, optional 12398 s2)
      end
  end.

Fixpoint strip_suffixes_from (fuel : nat) (s : jsstring) : jsstring :=
  match fuel, s with
  | S fuel', c :: rest =>
      match match_suffix s with
      | Some (digits, others) => digits ++ DASH ++ strip_suffixes_from fuel' others
      | None => c :: strip_suffixes_from fuel' rest
      end
  | _, _ => s
  end.

Definition strip_suffixes (s : jsstring) : jsstring :=
  strip_suffixes_from (length s) s.

Section Tokyo23TownTranform.

(** The chain of characters of the trie services, with its [replaceAll];
    the three conversions, on strings and on chains; [replaceAll] of
    strings; the finder of the trie.  Their code is in other services,
    outside the sources embedded here. *)
Variable CharNode : Type.
Variable CharNode_replaceAll : CharNode -> RegExp -> jsstring -> option CharNode.
Variable toHiragana kan2num jisKanji : jsstring -> jsstring.
Variable toHiraganaForCharNode kan2numForCharNode jisKanjiForCharNode :
  option CharNode -> option CharNode.
Variable String_replaceAll : jsstring -> RegExp -> jsstring -> jsstring.

Local Abbreviation Query := (Query.t CharNode).

(** What [find] takes and what it gives for each match. *)
Record TrieFinderParams : Type := mkParams {
  target : option CharNode;
  extraChallenges : list jsstring;
  partialMatches : bool
}.

Record TrieFinderResult : Type := mkResult {
  info : option Town.t;
  depth : Z;
  unmatched : option CharNode
}.

(** The trie: its option [fuzzy] and the pairs appended to it, in the
    order of the calls of [append]. *)
Record TrieAddressFinder : Type := mkTrie {
  fuzzy : option jsstring;
  appended : list (jsstring * Town.t)
}.

Variable TrieAddressFinder_find :
  TrieAddressFinder -> TrieFinderParams -> option (list TrieFinderResult).

(** [normalizeStr]: the four steps, each assigned back to [address]. *)
Definition normalizeStr (address : jsstring) : jsstring :=
  let address := toHiragana address in
  let address := kan2num address in
  let address := jisKanji address in
  let address := String_replaceAll address suffix_pattern suffix_replacement in
  address.

(** [normalizeCharNode]: [address?.replaceAll(...)] is [undefined] for an
    [undefined] chain. *)
Definition normalizeCharNode (address : option CharNode) : option CharNode :=
  let address :=
    match address with
    | Some chain => CharNode_replaceAll chain suffix_pattern suffix_replacement
    | None => None
    end in
  let address := toHiraganaForCharNode address in
  let address := kan2numForCharNode address in
  let address := jisKanjiForCharNode address in
  address.

(** The fields of the stage once its constructor and the callback it hands
    to [setImmediate] have run: the trie holds every town under its
    normalized key, and [initialized] is set, so the wait at the head of
    [_transform] is over. *)
Record Stage : Type := mkStage {
  tokyo23TownTrie : TrieAddressFinder;
  logger : bool
}.

Definition new (fuzzy_param : option jsstring) (tokyo23towns : list Town.t)
    (logger_param : bool) : Stage :=
  {| tokyo23TownTrie :=
       {| fuzzy := fuzzy_param;
          appended := List.map (fun town => (normalizeStr (Town.key town), town))
                               tokyo23towns |};
     logger := logger_param |}.

Variable this : Stage.

(** Modelled from the spec: [query.copy({...})], a copy of the record in
    which the named fields have the given values; here with the fields the
    stage names, taken from one result of the search. *)
Definition copy_with_town (query : Query) (searchResult : TrieFinderResult)
    (town : Town.t) : Query :=
  {| Query.input_address := Query.input_address query;
     Query.tempAddress := unmatched searchResult;
     Query.match_level := MatchLevel.MACHIAZA_DETAIL;
     Query.coordinate_level := MatchLevel.MACHIAZA_DETAIL;
     Query.pref_key := Town.pref_key town;
     Query.city_key := Town.city_key town;
     Query.town_key := Town.town_key town;
     Query.parcel_key := Query.parcel_key query;
     Query.rsdtblk_key := Query.rsdtblk_key query;
     Query.rsdtdsp_key := Query.rsdtdsp_key query;
     Query.lg_code := Town.lg_code town;
     Query.pref := Town.pref town;
     Query.county := Town.county town;
     Query.city := Town.city town;
     Query.ward := Town.ward town;
     Query.oaza_cho := Town.oaza_cho town;
     Query.chome := Town.chome town;
     Query.koaza := Town.koaza town;
     Query.machiaza_id := Town.machiaza_id town;
     Query.block := Query.block query;
     Query.block_id := Query.block_id query;
     Query.rsdt_num := Query.rsdt_num query;
     Query.rsdt_id := Query.rsdt_id query;
     Query.rsdt_num2 := Query.rsdt_num2 query;
     Query.rsdt2_id := Query.rsdt2_id query;
     Query.rsdt_addr_flg := Town.rsdt_addr_flg town;
     Query.prc_num1 := Query.prc_num1 query;
     Query.prc_num2 := Query.prc_num2 query;
     Query.prc_num3 := Query.prc_num3 query;
     Query.prc_id := Query.prc_id query;
     Query.rep_lat := Town.rep_lat town;
     Query.rep_lon := Town.rep_lon town;
     Query.matchedCnt := Query.matchedCnt query + depth searchResult;
     Query.startTime := Query.startTime query |}.

(** [array.forEach(f)] where [f] may throw and works on one array it
    pushes to. *)
Fixpoint forEach {A S : Type} (f : S -> A -> Result S) (array : list A) (s : S)
  : Result S :=
  match array with
  | [] => Ok s
  | a :: rest => s' ← f s a; forEach f rest s'
  end.

(** The callback of [searchResults.forEach]. *)
Definition each_searchResult (query : Query) (results : list Query)
    (searchResult : TrieFinderResult) : Result (list Query) :=
  match info searchResult with
  | None => Throw (Error (lit "searchResult.info is empty"))
  | Some town => Ok (results ++ [copy_with_town query searchResult town])
  end.

(** [!query.tempAddress || query.match_level.num >= MatchLevel.CITY.num] *)
Definition skipped (query : Query) : bool :=
  negb (bool_decide (is_Some (Query.tempAddress query)))
  || (MatchLevel.num MatchLevel.CITY <=? MatchLevel.num (Query.match_level query)).

(** The search of the stage for one record. *)
Definition search (query : Query) : option (list TrieFinderResult) :=
  TrieAddressFinder_find (tokyo23TownTrie this)
    {| target := normalizeCharNode (Query.tempAddress query);
       extraChallenges := [ku; machi; shi; mura];
       partialMatches := true |}.

(** The callback of [queries.forEach]. *)
Definition each_query (results : list Query) (query : Query) : Result (list Query) :=
  if skipped query then Ok (results ++ [query])
  else
    match search query with
    | None | Some [] => Ok (results ++ [query])
    | Some searchResults => forEach (each_searchResult query) searchResults results
    end.

(** [_transform]: the array handed to [callback], or what is thrown.  With
    a logger, [results[0].startTime] is read for the log line. *)
Definition _transform (queries : list Query) : Result (list Query) :=
  results ← forEach each_query queries [];
  if logger this then
    match results with
    | [] => Throw (TypeError (lit "Cannot read properties of undefined (reading 'startTime')"))
    | _ :: _ => Ok results
    end
  else Ok results.

(** *** The statements of the specification *)

(** The order in which the spec applies the operators. *)
Definition suffixStrip (address : jsstring) : jsstring :=
  String_replaceAll address suffix_pattern suffix_replacement.

Definition suffixStripForCharNode (address : option CharNode) : option CharNode :=
  chain ← address; CharNode_replaceAll chain suffix_pattern suffix_replacement.

(** The level the spec gives a matched record: [MACHIAZA_DETAIL] when the
    row has a chome or a koaza in its key, [MACHIAZA] otherwise. *)
Definition has_detail (town : Town.t) : bool :=
  match or_else (Town.chome town) [], or_else (Town.koaza town) [] with
  | [], [] => false
  | _, _ => true
  end.

Definition level_of_spec (town : Town.t) : MatchLevel.t :=
  if has_detail town then MatchLevel.MACHIAZA_DETAIL else MatchLevel.MACHIAZA.

(** A record the stage regards as resolved already. *)
Definition resolved (query : Query) : Prop :=
  Query.tempAddress query = None \/
  MatchLevel.num MatchLevel.CITY <= MatchLevel.num (Query.match_level query).

(** What the stage emits for one record. *)
Definition emitted (query : Query) : Result (list Query) := each_query [] query.

(** One emitted record and the result of the search it comes from: the keys
    are those of the row, the level is [level] of the row. *)
Definition town_record (level : Town.t -> MatchLevel.t)
    (searchResult : TrieFinderResult) (r : Query) : Prop :=
  exists town,
    info searchResult = Some town /\
    Query.pref_key r = Town.pref_key town /\
    Query.city_key r = Town.city_key town /\
    Query.town_key r = Town.town_key town /\
    Query.match_level r = level town.

(** The array handed on holds, for every record of the batch in order, what
    belongs to it; for a record that was searched with success, one record
    per result of the search. *)
Definition sets_town (level : Town.t -> MatchLevel.t)
    (queries results : list Query) : Prop :=
  exists outs,
    results = concat outs /\
    Forall2 (fun query out =>
               skipped query = false ->
               forall searchResults,
                 search query = Some searchResults -> searchResults <> [] ->
                 Forall2 (town_record level) searchResults out)
            queries outs.

(** No result of a search of the batch lacks its row. *)
Definition intact (queries : list Query) : Prop :=
  forall query searchResults searchResult,
    query ∈ queries -> skipped query = false ->
    search query = Some searchResults -> searchResult ∈ searchResults ->
    is_Some (info searchResult).

(** *** How the loops of [_transform] unfold *)

Lemma skipped_resolved query : skipped query = true <-> resolved query.
Proof.
  unfold skipped, resolved. rewrite orb_true_iff, negb_true_iff, Z.leb_le.
  rewrite bool_decide_eq_false, <- eq_None_not_Some. done.
Qed.

Lemma bind_Ok {A B : Type} (a : A) (k : A -> Result B) : (Ok a ≫= k) = k a.
Proof. reflexivity. Qed.

Lemma bind_Throw {A B : Type} (e : Exception) (k : A -> Result B) :
  (Throw e ≫= k) = Throw e.
Proof. reflexivity. Qed.

Lemma forEach_cons {A S : Type} (f : S -> A -> Result S) a rest s :
  forEach f (a :: rest) s = (s' ← f s a; forEach f rest s').
Proof. reflexivity. Qed.

Lemma each_searchResult_Some query acc sr town :
  info sr = Some town ->
  each_searchResult query acc sr = Ok (acc ++ [copy_with_town query sr town]).
Proof. intros H. unfold each_searchResult. by rewrite H. Qed.

Lemma each_searchResult_None query acc sr :
  info sr = None ->
  each_searchResult query acc sr = Throw (Error (lit "searchResult.info is empty")).
Proof. intros H. unfold each_searchResult. by rewrite H. Qed.

Lemma each_searchResult_acc query searchResults : forall acc,
  forEach (each_searchResult query) searchResults acc =
  (out ← forEach (each_searchResult query) searchResults []; Ok (acc ++ out)).
Proof.
  induction searchResults as [|sr rest IH]; intros acc.
  - change (Ok acc = Ok (acc ++ [])). by rewrite app_nil_r.
  - rewrite !forEach_cons. destruct (info sr) as [town|] eqn:Hi.
    + rewrite !(each_searchResult_Some _ _ _ _ Hi), !bind_Ok.
      rewrite (IH (acc ++ _)), (IH ([] ++ _)).
      destruct (forEach _ rest []); [|done].
      rewrite !bind_Ok. simpl. by rewrite <- app_assoc.
    + by rewrite !(each_searchResult_None _ _ _ Hi).
Qed.

Lemma each_query_acc acc query :
  each_query acc query = (out ← emitted query; Ok (acc ++ out)).
Proof.
  unfold emitted, each_query. destruct (skipped query); [done|].
  destruct (search query) as [[|sr rest]|]; try done.
  rewrite each_searchResult_acc.
  by destruct (forEach (each_searchResult query) (sr :: rest) []).
Qed.

Lemma forEach_query_Ok queries : forall acc results,
  forEach each_query queries acc = Ok results <->
  exists outs, Forall2 (fun query out => emitted query = Ok out) queries outs /\
               results = acc ++ concat outs.
Proof.
  induction queries as [|q rest IH]; intros acc results.
  - simpl. split.
    + intros [= <-]. exists []. split; [constructor | by rewrite app_nil_r].
    + intros (outs & H2 & ->). inversion H2; subst. simpl. by rewrite app_nil_r.
  - rewrite forEach_cons, each_query_acc. destruct (emitted q) as [out|e] eqn:Hq.
    + rewrite !bind_Ok, IH. split.
      * intros (outs & H2 & ->). exists (out :: outs). split; [by constructor|].
        simpl. by rewrite app_assoc.
      * intros (outs & H2 & ->). inversion H2 as [|? out' ? outs' Hout H2']; subst.
        exists outs'. split; [done|]. simpl. rewrite app_assoc. congruence.
    + rewrite !bind_Throw. split; [done|].
      intros (outs & H2 & _). inversion H2; subst. congruence.
Qed.

Lemma each_searchResult_Ok query searchResults : forall out,
  forEach (each_searchResult query) searchResults [] = Ok out <->
  Forall2 (fun sr r => exists town, info sr = Some town /\
                                    r = copy_with_town query sr town)
          searchResults out.
Proof.
  induction searchResults as [|sr rest IH]; intros out.
  - simpl. split; [intros [= <-]; constructor | by inversion 1].
  - rewrite forEach_cons. destruct (info sr) as [town|] eqn:Hi.
    + rewrite (each_searchResult_Some _ _ _ _ Hi), bind_Ok, each_searchResult_acc.
      destruct (forEach _ rest []) as [out'|e] eqn:Hrest.
      * rewrite bind_Ok. split.
        -- intros [= <-]. constructor; [by exists town | by apply IH].
        -- inversion 1 as [|? r ? out'' (town' & Ht & ->) H2]; subst.
           apply IH in H2. simpl. congruence.
      * rewrite bind_Throw. split; [done|].
        inversion 1 as [|? r ? out'' _ H2]; subst. apply IH in H2. done.
    + rewrite (each_searchResult_None _ _ _ Hi), bind_Throw. split; [done|].
      inversion 1 as [|? r ? out'' (town' & Ht & _) H2]; subst. congruence.
Qed.

(** The only thing thrown inside the loops is the error for a result
    without its row. *)
Lemma each_query_Throw acc query e :
  each_query acc query = Throw e -> e = Error (lit "searchResult.info is empty").
Proof.
  unfold each_query. destruct (skipped query); [done|].
  destruct (search query) as [[|sr rest]|]; try done.
  generalize (sr :: rest). clear. intros srs. revert acc.
  induction srs as [|sr rest IH]; intros acc; [done|].
  rewrite forEach_cons. destruct (info sr) as [town|] eqn:Hi.
  - rewrite (each_searchResult_Some _ _ _ _ Hi), bind_Ok. apply IH.
  - rewrite (each_searchResult_None _ _ _ Hi), bind_Throw. congruence.
Qed.

Lemma each_searchResult_missing query searchResults searchResult : forall acc,
  searchResult ∈ searchResults -> info searchResult = None ->
  forEach (each_searchResult query) searchResults acc =
  Throw (Error (lit "searchResult.info is empty")).
Proof.
  induction searchResults as [|sr rest IH]; intros acc Hin Hnone.
  - by apply elem_of_nil in Hin.
  - rewrite forEach_cons. destruct (info sr) as [town|] eqn:Hi.
    + rewrite (each_searchResult_Some _ _ _ _ Hi), bind_Ok.
      apply elem_of_cons in Hin as [->|Hin]; [congruence | by apply IH].
    + by rewrite (each_searchResult_None _ _ _ Hi), bind_Throw.
Qed.

(** What the stage emits for one record: the record itself, or one copy
    per result of a search that found something. *)
Lemma emitted_cases query out :
  emitted query = Ok out ->
  out = [query] \/
  (skipped query = false /\
   exists searchResults,
     search query = Some searchResults /\ searchResults <> [] /\
     Forall2 (fun sr r => exists town, info sr = Some town /\
                                       r = copy_with_town query sr town)
             searchResults out).
Proof.
  unfold emitted, each_query. destruct (skipped query); [intros [= <-]; by left|].
  destruct (search query) as [[|sr rest]|]; try (intros [= <-]; by left).
  intros H. right. split; [done|]. exists (sr :: rest).
  split; [done|]. split; [done|]. by apply each_searchResult_Ok.
Qed.

Lemma emitted_searched query searchResults :
  skipped query = false -> search query = Some searchResults -> searchResults <> [] ->
  emitted query = forEach (each_searchResult query) searchResults [].
Proof.
  intros Hs Hq Hne. unfold emitted, each_query. rewrite Hs, Hq.
  by destruct searchResults.
Qed.

Lemma emitted_resolved query : resolved query -> emitted query = Ok [query].
Proof.
  intros H. apply skipped_resolved in H. unfold emitted, each_query. by rewrite H.
Qed.

Lemma copy_resolved query sr town : resolved (copy_with_town query sr town).
Proof. right. simpl. lia. Qed.

Lemma emitted_nonempty query out : emitted query = Ok out -> out <> [].
Proof.
  intros [->|(_ & srs & _ & Hne & H2)]%emitted_cases; [done|].
  intros ->. inversion H2; subst. done.
Qed.

(** Every emitted record is one the stage hands on as it is. *)
Lemma emitted_stable query out :
  emitted query = Ok out -> Forall (fun r => emitted r = Ok [r]) out.
Proof.
  intros H. destruct (emitted_cases _ _ H) as [->|(_ & srs & _ & _ & H2)].
  - by constructor.
  - clear H. induction H2 as [|sr r srs out (town & _ & ->) _ IH]; constructor; [|done].
    apply emitted_resolved, copy_resolved.
Qed.

Lemma transform_Ok queries results :
  _transform queries = Ok results <->
  (exists outs, Forall2 (fun query out => emitted query = Ok out) queries outs /\
                results = concat outs) /\
  (logger this = true -> results <> []).
Proof.
  unfold _transform.
  destruct (forEach each_query queries []) as [rs|e] eqn:Hf.
  - rewrite bind_Ok.
    pose proof (proj1 (forEach_query_Ok _ _ _) Hf) as (outs & H2 & Hrs). simpl in Hrs.
    split.
    + destruct (logger this); [destruct rs as [|r rs']; [done|]|];
        intros [= <-]; (split; [by exists outs | done]).
    + intros [(outs' & H2' & ->) Hlog].
      assert (concat outs' = rs) as <-.
      { assert (Ok (concat outs') = Ok rs) as [=]; [|done].
        rewrite <- Hf. symmetry. apply forEach_query_Ok. by exists outs'. }
      destruct (logger this); [|done].
      destruct (concat outs') eqn:Hc; [|done]. by destruct Hlog.
  - rewrite bind_Throw. split; [done|]. intros [(outs & H2 & ->) _].
    assert (forEach each_query queries [] = Ok (concat outs)) as Hok
      by (apply forEach_query_Ok; by exists outs).
    congruence.
Qed.

Lemma transform_stable results :
  Forall (fun r => emitted r = Ok [r]) results ->
  (results <> [] \/ logger this = false) ->
  _transform results = Ok results.
Proof.
  intros Hst Hne. apply transform_Ok. split.
  - exists ((fun r => [r]) <$> results). split.
    + clear Hne. induction Hst; simpl; by constructor.
    + clear. induction results as [|r rs IH]; simpl; [done | by f_equal].
  - destruct Hne as [?|Hl]; [done | by rewrite Hl].
Qed.

(** The stage is idempotent on every batch. *)
Lemma transform_idempotent queries :
  (_transform queries ≫= _transform) = _transform queries.
Proof.
  destruct (_transform queries) as [rs|e] eqn:Ht; [|done].
  rewrite bind_Ok. apply transform_stable.
  - apply transform_Ok in Ht as [(outs & H2 & ->) _].
    induction H2 as [|q out qs outs Hq _ IH]; simpl; [constructor|].
    apply Forall_app. split; [by eapply emitted_stable | done].
  - apply transform_Ok in Ht as [_ Hlog]. destruct (logger this); [left; by apply Hlog | by right].
Qed.

(** C4: [normalizeStr] converts to hiragana, then the numerals, then the
    kanji, and strips the suffixes last; [normalizeCharNode] strips the
    suffixes first and then converts to hiragana, the numerals, the kanji;
    for every string and every chain (also the absent one). *)
Theorem normalize_order :
  (forall address : jsstring,
     normalizeStr address = suffixStrip (jisKanji (kan2num (toHiragana address)))) /\
  (forall address : option CharNode,
     normalizeCharNode address =
     jisKanjiForCharNode
       (kan2numForCharNode (toHiraganaForCharNode (suffixStripForCharNode address)))).
Proof.
  split; intros address.
  - reflexivity.
  - unfold normalizeCharNode, suffixStripForCharNode. by destruct address.
Qed.

(** C5: in every batch the stage hands on, a record whose [tempAddress] is
    absent or whose [match_level] is [CITY] or above is handed on as it is,
    at its place; a batch of such records comes out as it went in; and
    running the stage on its own output changes nothing. *)
Theorem resolved_pass_through_and_idempotent (queries : list Query) :
  (forall results, _transform queries = Ok results ->
     exists outs, results = concat outs /\
       Forall2 (fun query out => resolved query -> out = [query]) queries outs) /\
  (Forall resolved queries -> queries <> [] \/ logger this = false ->
     _transform queries = Ok queries) /\
  (_transform queries ≫= _transform) = _transform queries.
Proof.
  split; [|split].
  - intros results [(outs & H2 & ->) _]%transform_Ok. exists outs. split; [done|].
    eapply Forall2_impl; [exact H2|]. simpl. intros q out Hq Hres.
    rewrite (emitted_resolved _ Hres) in Hq. congruence.
  - intros Hres Hne. apply transform_stable; [|done].
    eapply Forall_impl; [exact Hres|]. apply emitted_resolved.
  - apply transform_idempotent.
Qed.

(** C6: if every record of a batch has [match_level >= coordinate_level],
    so has every record the stage hands on. *)
Theorem transform_preserves_Q1 (queries results : list Query) :
  Forall Query.Q1 queries ->
  _transform queries = Ok results ->
  Forall Query.Q1 results.
Proof.
  intros HQ [(outs & H2 & ->) _]%transform_Ok.
  induction H2 as [|q out qs outs Hq _ IH]; simpl; [constructor|].
  inversion HQ as [|? ? Hq1 HQ']; subst.
  apply Forall_app. split; [|by apply IH].
  destruct (emitted_cases _ _ Hq) as [->|(_ & srs & _ & _ & Hrs)].
  - by constructor.
  - clear Hq. induction Hrs as [|sr r srs out (town & _ & ->) _ IHr]; constructor; [|done].
    unfold Query.Q1. simpl. lia.
Qed.

(** C9: a result of a search of the stage that lacks its row makes
    [_transform] throw the error; nothing is handed on for the batch. *)
Theorem empty_info_is_fatal (queries : list Query) query searchResults searchResult :
  query ∈ queries ->
  skipped query = false ->
  search query = Some searchResults ->
  searchResult ∈ searchResults ->
  info searchResult = None ->
  _transform queries = Throw (Error (lit "searchResult.info is empty")).
Proof.
  intros Hin Hs Hq Hsr Hnone. unfold _transform.
  assert (forall acc, forEach each_query queries acc =
                      Throw (Error (lit "searchResult.info is empty"))) as ->; [|done].
  induction queries as [|q rest IH]; intros acc; [by apply elem_of_nil in Hin|].
  rewrite forEach_cons. destruct (each_query acc q) as [acc'|e] eqn:Hq'.
  - rewrite bind_Ok. apply elem_of_cons in Hin as [<-|Hin]; [|by apply IH].
    unfold each_query in Hq'. rewrite Hs, Hq in Hq'.
    destruct searchResults as [|sr srs]; [by apply elem_of_nil in Hsr|].
    by rewrite (each_searchResult_missing _ _ _ _ Hsr Hnone) in Hq'.
  - rewrite bind_Throw. by rewrite (each_query_Throw _ _ _ Hq').
Qed.

Lemma each_searchResult_total query searchResults :
  (forall sr, sr ∈ searchResults -> is_Some (info sr)) ->
  exists out, forEach (each_searchResult query) searchResults [] = Ok out.
Proof.
  induction searchResults as [|sr rest IH]; intros Hall.
  - by exists [].
  - destruct (Hall sr) as [town Hi]; [by left|].
    destruct IH as [out Hout]; [intros sr' ?; apply Hall; by right|].
    exists ([] ++ [copy_with_town query sr town] ++ out).
    rewrite forEach_cons, (each_searchResult_Some _ _ _ _ Hi), bind_Ok.
    by rewrite each_searchResult_acc, Hout, bind_Ok.
Qed.

Lemma emitted_total query :
  (forall searchResults sr, skipped query = false ->
     search query = Some searchResults -> sr ∈ searchResults -> is_Some (info sr)) ->
  exists out, emitted query = Ok out.
Proof.
  intros Hall. unfold emitted, each_query.
  destruct (skipped query) eqn:Hs; [by eexists|].
  destruct (search query) as [[|sr rest]|] eqn:Hq; try by eexists.
  apply each_searchResult_total. intros sr' Hin. by eapply Hall.
Qed.

(** C3, as the code has it: when no result of a search lacks its row, the
    stage hands the batch on, and a record below [CITY] with a
    [tempAddress] whose search finds something is replaced by one record
    per result, with [pref_key], [city_key] and [town_key] of the row of
    that result and with [match_level] [MACHIAZA_DETAIL], whether or not
    the row has a chome or a koaza. *)
Theorem matched_records_get_keys_and_detail_level (queries : list Query) :
  queries <> [] \/ logger this = false ->
  intact queries ->
  exists results,
    _transform queries = Ok results /\
    sets_town (fun _ => MatchLevel.MACHIAZA_DETAIL) queries results.
Proof.
  intros Hne Hint.
  assert (exists outs, Forall2 (fun query out => emitted query = Ok out) queries outs)
    as [outs H2].
  { clear Hne. induction queries as [|q rest IH]; [by exists []|].
    destruct (emitted_total q) as [out Hout].
    { intros srs sr Hs Hq Hin. eapply (Hint q); [by left | done..]. }
    destruct IH as [outs H2].
    { intros q' srs sr Hin. apply Hint. by right. }
    exists (out :: outs). by constructor. }
  exists (concat outs). split.
  - apply transform_Ok. split; [by exists outs|]. intros Hlog.
    destruct Hne as [Hne|Hl]; [|congruence].
    destruct H2 as [|q out qs outs' Hq _]; [done|]. simpl.
    apply emitted_nonempty in Hq. by destruct out.
  - exists outs. split; [done|].
    eapply Forall2_impl; [exact H2|]. simpl.
    intros q out Hq Hs srs Hsearch Hsrs.
    rewrite (emitted_searched _ _ Hs Hsearch Hsrs) in Hq.
    apply each_searchResult_Ok in Hq.
    eapply Forall2_impl; [exact Hq|]. simpl.
    intros sr r (town & Hi & ->). by exists town.
Qed.

(** *** Further properties of the stage *)

(** The stage drops no record: it hands on at least as many records as
    the batch holds. *)
Theorem transform_never_drops (queries results : list Query) :
  _transform queries = Ok results -> (length queries <= length results)%nat.
Proof.
  intros [(outs & H2 & ->) _]%transform_Ok.
  induction H2 as [|q out qs outs Hq _ IH]; simpl; [done|].
  rewrite length_app. apply emitted_nonempty in Hq. destruct out; [done|]. simpl. lia.
Qed.

(** Every record handed on belongs to a record of the batch: it has the
    same input, and its [match_level] is not lower. *)
Theorem emitted_records_stem_from_batch (queries results : list Query) r :
  _transform queries = Ok results ->
  r ∈ results ->
  exists q, q ∈ queries /\
    Query.input_address r = Query.input_address q /\
    MatchLevel.num (Query.match_level q) <= MatchLevel.num (Query.match_level r).
Proof.
  intros [(outs & H2 & ->) _]%transform_Ok Hr.
  induction H2 as [|q out qs outs Hq _ IH]; simpl in Hr; [by apply elem_of_nil in Hr|].
  apply elem_of_app in Hr as [Hr|Hr].
  - exists q. split; [by left|].
    destruct (emitted_cases _ _ Hq) as [->|(Hs & srs & _ & _ & Hrs)].
    + apply list_elem_of_singleton in Hr. by subst r.
    + apply list_elem_of_lookup in Hr as [i Hi].
      destruct (Forall2_lookup_r _ _ _ _ _ Hrs Hi) as (sr & _ & town & _ & ->).
      split; [done|]. simpl.
      unfold skipped in Hs. apply orb_false_iff in Hs as [_ Hs].
      apply Z.leb_gt in Hs. simpl in Hs. lia.
  - destruct (IH Hr) as (q' & Hq' & H). exists q'. split; [by right | done].
Qed.

(** A record whose search returns nothing ([undefined] or an empty array)
    is handed on as it is, at its place. *)
Theorem miss_is_handed_on_unchanged (queries results : list Query) :
  _transform queries = Ok results ->
  exists outs, results = concat outs /\
    Forall2 (fun query out =>
               search query = None \/ search query = Some [] -> out = [query])
            queries outs.
Proof.
  intros [(outs & H2 & ->) _]%transform_Ok. exists outs. split; [done|].
  eapply Forall2_impl; [exact H2|]. simpl. intros q out Hq Hmiss.
  destruct (emitted_cases _ _ Hq) as [->|(_ & srs & Hsrs & Hne & _)]; [done|].
  destruct Hmiss as [Hm|Hm]; rewrite Hm in Hsrs; [done|]. by injection Hsrs as <-.
Qed.

End Tokyo23TownTranform.

(** *** The suffix pattern on strings *)

Lemma span_length p s :
  (length (span p s).1 + length (span p s).2 = length s)%nat.
Proof.
  induction s as [|c rest IH]; simpl; [done|].
  destruct (p c); [|done]. destruct (span p rest) as [taken others]. simpl in *. lia.
Qed.

Lemma optional_length c s : (length (optional c s) <= length s)%nat.
Proof. destruct s as [|d rest]; simpl; [done|]. destruct (d =? c)%N; simpl; lia. Qed.

(** A match is never empty. *)
Lemma match_suffix_shorter s digits others :
  match_suffix s = Some (digits, others) -> (length others < length s)%nat.
Proof.
  unfold match_suffix. pose proof (span_length is_digit s) as H1.
  destruct (span is_digit s) as [ds s1]. simpl in H1.
  destruct ds as [|d ds]; [done|].
  pose proof (span_length in_suffix_class (optional 45 s1)) as H2.
  pose proof (optional_length 45 s1) as H3.
  destruct (span in_suffix_class (optional 45 s1)) as [marks s2]. simpl in H2.
  destruct marks as [|m marks]; [done|]. intros [= _ <-].
  pose proof (optional_length 12398 s2). simpl in *. lia.
Qed.

(** The length of the string is fuel enough. *)
Lemma strip_suffixes_from_enough fuel : forall s,
  (length s <= fuel)%nat -> strip_suffixes_from fuel s = strip_suffixes s.
Proof.
  unfold strip_suffixes.
  cut (forall n m s, (length s <= n)%nat -> (length s <= m)%nat ->
                     strip_suffixes_from n s = strip_suffixes_from m s).
  { intros H s Hs. by apply H. }
  clear fuel. induction n as [|n IH]; intros m s Hn Hm.
  - destruct s; [|simpl in Hn; lia]. by destruct m.
  - destruct s as [|c rest]; [by destruct m|].
    destruct m as [|m]; [simpl in Hm; lia|]. simpl in Hn, Hm.
    cbn [strip_suffixes_from].
    destruct (match_suffix (c :: rest)) as [[digits others]|] eqn:Hmatch.
    + apply match_suffix_shorter in Hmatch. simpl in Hmatch.
      f_equal. f_equal. apply IH; lia.
    + f_equal. apply IH; lia.
Qed.

(** *** A small instance *)

(** The numerals [一], [二], [三] as digits: what [kan2num] does to them
    one by one. *)
Definition numerals (s : jsstring) : jsstring :=
  (fun c => if (c =? 19968)%N then 49%N
            else if (c =? 20108)%N then 50%N
            else if (c =? 19977)%N then 51%N
            else c) <$> s.

(** [一丁目]: with the suffixes stripped last the numeral has become a
    digit by then and the suffix goes; with the suffixes stripped first
    there is no digit yet and the suffix stays. *)
Example strip_after_numerals :
  normalizeStr (fun a => a) numerals (fun a => a) (fun a _ _ => strip_suffixes a)
    [19968; 19969; 30446]%N = lit "1-".
Proof. reflexivity. Qed.

Example strip_before_numerals :
  normalizeCharNode jsstring (fun a _ _ => Some (strip_suffixes a))
    (fun a => a) (fmap numerals) (fun a => a) (Some [19968; 19969; 30446]%N)
  = Some [49; 19969; 30446]%N.
Proof. reflexivity. Qed.

Example strip_block_numbers :
  strip_suffixes (lit "1" ++ [19969; 30446]%N ++ lit "2" ++ [30058]%N
                  ++ lit "3" ++ [21495]%N) = lit "1-2-3-".
Proof. reflexivity. Qed.


(** Chains are plain strings here, the conversions change nothing, and the
    finder returns the entries of the trie that are a prefix of the target,
    with the rest of the target.  This stands in for the services only in
    the examples below. *)
Definition keep (chain : jsstring) (_ : RegExp) (_ : jsstring) : option jsstring :=
  Some chain.

Definition same (chain : option jsstring) : option jsstring := chain.

Fixpoint starts_with (prefix chain : jsstring) : bool :=
  match prefix, chain with
  | [], _ => true
  | c :: prefix', d :: chain' => (c =? d)%N && starts_with prefix' chain'
  | _ :: _, [] => false
  end.

Definition prefix_find (trie : TrieAddressFinder) (params : TrieFinderParams jsstring)
  : option (list (TrieFinderResult jsstring)) :=
  match target _ params with
  | None => None
  | Some chain =>
      Some (omap (fun '(k, town) =>
                    if starts_with k chain then
                      Some {| info := Some town;
                              depth := Z.of_nat (length k);
                              unmatched := Some (drop (length k) chain) |}
                    else None)
                 (appended trie))
  end.

(** A finder of a corrupt index: one result, without its row. *)
Definition corrupt_find (trie : TrieAddressFinder) (params : TrieFinderParams jsstring)
  : option (list (TrieFinderResult jsstring)) :=
  Some [{| info := None; depth := 0; unmatched := target _ params |}].

(** A town without chome and koaza. *)
Definition marunouchi : Town.t :=
  {| Town.pref_key := Some 13; Town.city_key := Some 13101; Town.town_key := Some 131010058;
     Town.rsdt_addr_flg := Some 1;
     Town.rep_lat := Some 35.6875%float; Town.rep_lon := Some 139.75%float;
     Town.koaza := None; Town.pref := Some (lit "Tokyo"); Town.county := None;
     Town.city := Some (lit "Chiyoda"); Town.ward := None;
     Town.lg_code := Some (lit "131016"); Town.oaza_cho := Some (lit "Marunouchi");
     Town.machiaza_id := Some (lit "0058000"); Town.chome := None;
     Town.key := lit "Chiyoda Marunouchi" |}.

Definition stage : Stage :=
  new (fun a => a) (fun a => a) (fun a => a) (fun a _ _ => a) None [marunouchi] false.

(** A record fresh from the input, and one resolved down to its city. *)
Definition unresolved_query : Query.t jsstring :=
  {| Query.input_address := lit "Chiyoda Marunouchi 1";
     Query.tempAddress := Some (lit "Chiyoda Marunouchi 1");
     Query.match_level := MatchLevel.UNKNOWN;
     Query.coordinate_level := MatchLevel.UNKNOWN;
     Query.pref_key := None; Query.city_key := None; Query.town_key := None;
     Query.parcel_key := None; Query.rsdtblk_key := None; Query.rsdtdsp_key := None;
     Query.lg_code := None; Query.pref := None; Query.county := None;
     Query.city := None; Query.ward := None; Query.oaza_cho := None;
     Query.chome := None; Query.koaza := None; Query.machiaza_id := None;
     Query.block := None; Query.block_id := None; Query.rsdt_num := None;
     Query.rsdt_id := None; Query.rsdt_num2 := None; Query.rsdt2_id := None;
     Query.rsdt_addr_flg := None; Query.prc_num1 := None; Query.prc_num2 := None;
     Query.prc_num3 := None; Query.prc_id := None;
     Query.rep_lat := None; Query.rep_lon := None;
     Query.matchedCnt := 0; Query.startTime := 1700000000000%float |}.

Definition city_query : Query.t jsstring :=
  {| Query.input_address := lit "Sapporo Chuo";
     Query.tempAddress := Some (lit "Chuo");
     Query.match_level := MatchLevel.CITY;
     Query.coordinate_level := MatchLevel.CITY;
     Query.pref_key := Some 1; Query.city_key := Some 1101; Query.town_key := None;
     Query.parcel_key := None; Query.rsdtblk_key := None; Query.rsdtdsp_key := None;
     Query.lg_code := Some (lit "011011"); Query.pref := Some (lit "Hokkaido");
     Query.county := None; Query.city := Some (lit "Sapporo"); Query.ward := None;
     Query.oaza_cho := None;
     Query.chome := None; Query.koaza := None; Query.machiaza_id := None;
     Query.block := None; Query.block_id := None; Query.rsdt_num := None;
     Query.rsdt_id := None; Query.rsdt_num2 := None; Query.rsdt2_id := None;
     Query.rsdt_addr_flg := None; Query.prc_num1 := None; Query.prc_num2 := None;
     Query.prc_num3 := None; Query.prc_id := None;
     Query.rep_lat := Some 43.0625%float; Query.rep_lon := Some 141.375%float;
     Query.matchedCnt := 8; Query.startTime := 1700000000000%float |}.

(** The result of the search for [unresolved_query] and the record made of it. *)
Definition marunouchi_result : TrieFinderResult jsstring :=
  {| info := Some marunouchi; depth := 18; unmatched := Some (lit " 1") |}.

Definition marunouchi_query : Query.t jsstring :=
  copy_with_town jsstring unresolved_query marunouchi_result marunouchi.

(** The stage with these services. *)
Definition transform_here := _transform jsstring keep same same same prefix_find stage.
Definition search_here := search jsstring keep same same same prefix_find stage.
Definition skipped_here := skipped jsstring.

Example transform_unresolved : transform_here [unresolved_query] = Ok [marunouchi_query].
Proof. vm_compute. reflexivity. Qed.

Example transform_city : transform_here [city_query] = Ok [city_query].
Proof. vm_compute. reflexivity. Qed.

(** C3, as stated, fails: the row of Marunouchi has neither chome nor koaza
    in its key, so the spec gives the record the level [MACHIAZA]; the
    stage gives it [MACHIAZA_DETAIL]. *)
Lemma level_is_detail_without_chome_or_koaza :
  transform_here [unresolved_query] = Ok [marunouchi_query] /\
  level_of_spec marunouchi = MatchLevel.MACHIAZA /\
  Query.match_level marunouchi_query = MatchLevel.MACHIAZA_DETAIL /\
  ~ sets_town jsstring keep same same same prefix_find stage level_of_spec
      [unresolved_query] [marunouchi_query].
Proof.
  split; [vm_compute; reflexivity|]. split; [reflexivity|]. split; [reflexivity|].
  intros (outs & Hc & H2).
  inversion H2 as [|q out qs outs' Hq H2']; subst. inversion H2'; subst.
  simpl in Hc. rewrite app_nil_r in Hc. subst out.
  specialize (Hq eq_refl [marunouchi_result]).
  assert (search jsstring keep same same same prefix_find stage unresolved_query =
          Some [marunouchi_result]) as Hs by (vm_compute; reflexivity).
  specialize (Hq Hs ltac:(done)).
  inversion Hq as [|sr r srs out (town & Hi & _ & _ & _ & Hl) _]; subst.
  injection Hi as <-. discriminate Hl.
Qed.

Lemma matched_records_get_keys_and_detail_level_witness :
  ([unresolved_query] <> [] \/ logger stage = false) /\
  intact jsstring keep same same same prefix_find stage [unresolved_query] /\
  exists results,
    transform_here [unresolved_query] = Ok results /\
    sets_town jsstring keep same same same prefix_find stage
      (fun _ => MatchLevel.MACHIAZA_DETAIL) [unresolved_query] results.
Proof.
  assert ([unresolved_query] <> [] \/ logger stage = false) as Hne by (right; reflexivity).
  assert (intact jsstring keep same same same prefix_find stage [unresolved_query])
    as Hint.
  { intros q srs sr Hq _ Hs Hsr.
    apply list_elem_of_singleton in Hq. subst q.
    vm_compute in Hs. injection Hs as <-.
    apply list_elem_of_singleton in Hsr. subst sr. by eexists. }
  split; [exact Hne|]. split; [exact Hint|].
  exact (matched_records_get_keys_and_detail_level jsstring keep same same same
           prefix_find stage [unresolved_query] Hne Hint).
Defined.

Lemma resolved_pass_through_and_idempotent_witness :
  Forall (resolved jsstring) [city_query] /\
  ([city_query] <> [] \/ logger stage = false) /\
  transform_here [city_query] = Ok [city_query].
Proof.
  assert (Forall (resolved jsstring) [city_query]) as Hres.
  { constructor; [|constructor]. right. simpl. lia. }
  assert ([city_query] <> [] \/ logger stage = false) as Hne by (right; reflexivity).
  split; [exact Hres|]. split; [exact Hne|].
  exact (proj1 (proj2 (resolved_pass_through_and_idempotent jsstring keep same same same
                         prefix_find stage [city_query])) Hres Hne).
Defined.

Lemma transform_preserves_Q1_witness :
  Forall Query.Q1 [unresolved_query; city_query] /\
  transform_here [unresolved_query; city_query] = Ok [marunouchi_query; city_query] /\
  Forall Query.Q1 [marunouchi_query; city_query].
Proof.
  assert (Forall Query.Q1 [unresolved_query; city_query]) as HQ.
  { repeat constructor; unfold Query.Q1; simpl; lia. }
  assert (transform_here [unresolved_query; city_query] =
          Ok [marunouchi_query; city_query]) as Ht by (vm_compute; reflexivity).
  split; [exact HQ|]. split; [exact Ht|].
  exact (transform_preserves_Q1 jsstring keep same same same prefix_find stage _ _ HQ Ht).
Defined.

Lemma empty_info_is_fatal_witness :
  city_query ∈ [city_query; unresolved_query] /\
  unresolved_query ∈ [city_query; unresolved_query] /\
  skipped_here unresolved_query = false /\
  search jsstring keep same same same corrupt_find stage unresolved_query =
    Some [{| info := None; depth := 0; unmatched := Some (lit "Chiyoda Marunouchi 1") |}] /\
  _transform jsstring keep same same same corrupt_find stage
    [city_query; unresolved_query] = Throw (Error (lit "searchResult.info is empty")).
Proof.
  assert (unresolved_query ∈ [city_query; unresolved_query]) as Hin
    by (right; left).
  assert (skipped_here unresolved_query = false) as Hs by reflexivity.
  assert (search jsstring keep same same same corrupt_find stage unresolved_query =
          Some [{| info := None; depth := 0;
                   unmatched := Some (lit "Chiyoda Marunouchi 1") |}]) as Hq
    by reflexivity.
  split; [left|]. split; [exact Hin|]. split; [exact Hs|]. split; [exact Hq|].
  exact (empty_info_is_fatal jsstring keep same same same corrupt_find stage
           _ _ _ _ Hin Hs Hq (list_elem_of_here _ _) eq_refl).
Defined.

(** *** The logger and the empty batch *)

Section Logger.

Variable CharNode : Type.
Variable CharNode_replaceAll : CharNode -> RegExp -> jsstring -> option CharNode.
Variable toHiraganaForCharNode kan2numForCharNode jisKanjiForCharNode :
  option CharNode -> option CharNode.
Variable TrieAddressFinder_find :
  TrieAddressFinder -> TrieFinderParams CharNode -> option (list (TrieFinderResult CharNode)).
Variable trie : TrieAddressFinder.

Local Abbreviation transform_of stage :=
  (_transform CharNode CharNode_replaceAll toHiraganaForCharNode kan2numForCharNode
     jisKanjiForCharNode TrieAddressFinder_find stage).

(** The stage without and with a logger. *)
Definition silent : Stage := {| tokyo23TownTrie := trie; logger := false |}.
Definition logging : Stage := {| tokyo23TownTrie := trie; logger := true |}.

(** The logger makes a difference for the empty batch only: with a logger
    [_transform] throws there, reading [startTime] of [results[0]], which
    is [undefined]; without one it hands on the empty array.  A batch with
    a record in it fares the same with and without logger. *)
Theorem logger_matters_for_empty_batch_only (queries : list (Query.t CharNode)) :
  transform_of silent [] = Ok [] /\
  transform_of logging [] =
    Throw (TypeError (lit "Cannot read properties of undefined (reading 'startTime')")) /\
  (queries <> [] -> transform_of logging queries = transform_of silent queries).
Proof.
  split; [reflexivity|]. split; [reflexivity|]. intros Hne.
  unfold _transform.
  change (forEach (each_query CharNode CharNode_replaceAll toHiraganaForCharNode
                     kan2numForCharNode jisKanjiForCharNode TrieAddressFinder_find
                     logging) queries [])
    with (forEach (each_query CharNode CharNode_replaceAll toHiraganaForCharNode
                     kan2numForCharNode jisKanjiForCharNode TrieAddressFinder_find
                     silent) queries []).
  destruct (forEach _ queries []) as [results|e] eqn:Hf; [|done].
  rewrite !bind_Ok. simpl.
  apply forEach_query_Ok in Hf as (outs & H2 & ->).
  destruct H2 as [|q out qs outs Hq _]; [done|]. simpl.
  apply emitted_nonempty in Hq. by destruct out.
Qed.

End Logger.

(** *** More on the suffix pattern *)

Lemma match_suffix_consumes s digits others :
  match_suffix s = Some (digits, others) ->
  (length digits + 1 + length others <= length s)%nat.
Proof.
  unfold match_suffix. pose proof (span_length is_digit s) as H1.
  destruct (span is_digit s) as [ds s1]. simpl in H1.
  destruct ds as [|d ds]; [done|].
  pose proof (span_length in_suffix_class (optional 45 s1)) as H2.
  pose proof (optional_length 45 s1) as H3.
  destruct (span in_suffix_class (optional 45 s1)) as [marks s2]. simpl in H2.
  destruct marks as [|m marks]; [done|]. intros [= <- <-].
  pose proof (optional_length 12398 s2). simpl in *. lia.
Qed.

Lemma match_suffix_needs_digit c rest :
  is_digit c = false -> match_suffix (c :: rest) = None.
Proof. intros H. unfold match_suffix. simpl. by rewrite H. Qed.

(** Stripping the suffixes never makes a string longer, and leaves a
    string without an ASCII digit as it is (so a street number written in
    kanji keeps its suffix until the numerals are converted). *)
Theorem strip_suffixes_shortens_only_after_digits (s : jsstring) :
  (length (strip_suffixes s) <= length s)%nat /\
  (Forall (fun c => is_digit c = false) s -> strip_suffixes s = s).
Proof.
  unfold strip_suffixes. generalize (length s) at 1 3. intros fuel. split.
  - revert s. induction fuel as [|fuel IH]; intros s; [by destruct s|].
    destruct s as [|c rest]; [done|]. cbn [strip_suffixes_from].
    destruct (match_suffix (c :: rest)) as [[digits others]|] eqn:Hm.
    + apply match_suffix_consumes in Hm. rewrite !length_app.
      specialize (IH others). change (length DASH) with 1%nat. lia.
    + specialize (IH rest). simpl. lia.
  - revert s. induction fuel as [|fuel IH]; intros s Hs; [by destruct s|].
    destruct s as [|c rest]; [done|]. cbn [strip_suffixes_from].
    inversion Hs as [|? ? Hc Hrest]; subst.
    rewrite (match_suffix_needs_digit _ _ Hc). f_equal. by apply IH.
Qed.

Lemma logger_matters_for_empty_batch_only_witness :
  [unresolved_query] <> [] /\
  _transform jsstring keep same same same prefix_find
    (logging (tokyo23TownTrie stage)) [unresolved_query] =
  _transform jsstring keep same same same prefix_find
    (silent (tokyo23TownTrie stage)) [unresolved_query].
Proof.
  assert ([unresolved_query] <> []) as Hne by discriminate.
  split; [exact Hne|].
  exact (proj2 (proj2 (logger_matters_for_empty_batch_only jsstring keep same same same
                         prefix_find (tokyo23TownTrie stage) [unresolved_query])) Hne).
Defined.

Lemma strip_suffixes_shortens_only_after_digits_witness :
  Forall (fun c => is_digit c = false) [19968; 19969; 30446]%N /\
  strip_suffixes [19968; 19969; 30446]%N = [19968; 19969; 30446]%N.
Proof.
  assert (Forall (fun c => is_digit c = false) [19968; 19969; 30446]%N) as H
    by (repeat constructor).
  split; [exact H|].
  exact (proj2 (strip_suffixes_shortens_only_after_digits _) H).
Defined.

Lemma transform_never_drops_witness :
  transform_here [unresolved_query; city_query] = Ok [marunouchi_query; city_query] /\
  (length [unresolved_query; city_query] <= length [marunouchi_query; city_query])%nat.
Proof.
  assert (transform_here [unresolved_query; city_query] =
          Ok [marunouchi_query; city_query]) as Ht by (vm_compute; reflexivity).
  split; [exact Ht|].
  exact (transform_never_drops jsstring keep same same same prefix_find stage _ _ Ht).
Defined.

Lemma emitted_records_stem_from_batch_witness :
  transform_here [unresolved_query; city_query] = Ok [marunouchi_query; city_query] /\
  marunouchi_query ∈ [marunouchi_query; city_query] /\
  exists q, q ∈ [unresolved_query; city_query] /\
    Query.input_address marunouchi_query = Query.input_address q /\
    MatchLevel.num (Query.match_level q) <=
    MatchLevel.num (Query.match_level marunouchi_query).
Proof.
  assert (transform_here [unresolved_query; city_query] =
          Ok [marunouchi_query; city_query]) as Ht by (vm_compute; reflexivity).
  assert (marunouchi_query ∈ [marunouchi_query; city_query]) as Hr by left.
  split; [exact Ht|]. split; [exact Hr|].
  exact (emitted_records_stem_from_batch jsstring keep same same same prefix_find stage
           _ _ _ Ht Hr).
Defined.

(** A record whose address is no town of the trie. *)
Definition elsewhere_query : Query.t jsstring :=
  {| Query.input_address := lit "Osaka Kita";
     Query.tempAddress := Some (lit "Osaka Kita");
     Query.match_level := MatchLevel.UNKNOWN;
     Query.coordinate_level := MatchLevel.UNKNOWN;
     Query.pref_key := None; Query.city_key := None; Query.town_key := None;
     Query.parcel_key := None; Query.rsdtblk_key := None; Query.rsdtdsp_key := None;
     Query.lg_code := None; Query.pref := None; Query.county := None;
     Query.city := None; Query.ward := None; Query.oaza_cho := None;
     Query.chome := None; Query.koaza := None; Query.machiaza_id := None;
     Query.block := None; Query.block_id := None; Query.rsdt_num := None;
     Query.rsdt_id := None; Query.rsdt_num2 := None; Query.rsdt2_id := None;
     Query.rsdt_addr_flg := None; Query.prc_num1 := None; Query.prc_num2 := None;
     Query.prc_num3 := None; Query.prc_id := None;
     Query.rep_lat := None; Query.rep_lon := None;
     Query.matchedCnt := 0; Query.startTime := 1700000000000%float |}.

Lemma miss_is_handed_on_unchanged_witness :
  transform_here [elsewhere_query] = Ok [elsewhere_query] /\
  search_here elsewhere_query = Some [] /\
  exists outs, [elsewhere_query] = concat outs /\
    Forall2 (fun query out =>
               search_here query = None \/ search_here query = Some [] -> out = [query])
            [elsewhere_query] outs.
Proof.
  assert (transform_here [elsewhere_query] = Ok [elsewhere_query]) as Ht
    by (vm_compute; reflexivity).
  split; [exact Ht|]. split; [vm_compute; reflexivity|].
  exact (miss_is_handed_on_unchanged jsstring keep same same same prefix_find stage
           _ _ Ht).
Defined.

End Tokyo23.

(** ** JsonTransform: the JSON formatter *)

Module Json.
Import Js.

(** The values the formatter serializes. *)
#[local] Set Warnings "-register-all".
Inductive Value : Type :=
  | Undefined
  | Null
  | Str (s : jsstring)
  | Int (n : Z)
  | Num (n : float)
  | Obj (properties : list (jsstring * Value))
  | Arr (items : list Value).

(** Modelled from the spec: the constants [BLANK_CHAR] (the sentinel [""]
    of a missing string field) and [BREAK_AT_EOF] (the line break at the
    end of the output) of the configuration. *)
Definition BLANK_CHAR : jsstring := [].
Definition BREAK_AT_EOF : jsstring := [10%N].

(** [parts.join(separator)] *)
Fixpoint join (separator : jsstring) (parts : list jsstring) : jsstring :=
  match parts with
  | [] => []
  | [part] => part
  | part :: rest => part ++ separator ++ join separator rest
  end.

(** A hexadecimal digit, in lower case, and [\uXXXX]. *)
Definition hex_digit (d : N) : N :=
  (if d <? 10 then 48 + d else 87 + d)%N.

Definition unicode_escape (c : N) : jsstring :=
  lit "\u" ++ [hex_digit (c / 4096 mod 16); hex_digit (c / 256 mod 16);
               hex_digit (c / 16 mod 16); hex_digit (c mod 16)]%N.

Definition is_high_surrogate (c : N) : bool := ((55296 <=? c) && (c <=? 56319))%N.
Definition is_low_surrogate (c : N) : bool := ((56320 <=? c) && (c <=? 57343))%N.

(** The escape of one code unit that is not part of a surrogate pair. *)
Definition escape_unit (c : N) : jsstring :=
  if (c =? 8)%N then lit "\b"
  else if (c =? 9)%N then lit "\t"
  else if (c =? 10)%N then lit "\n"
  else if (c =? 12)%N then lit "\f"
  else if (c =? 13)%N then lit "\r"
  else if (c =? 34)%N then [92; 34]%N
  else if (c =? 92)%N then lit "\\"
  else if (c <? 32)%N || is_high_surrogate c || is_low_surrogate c then unicode_escape c
  else [c].

(** The characters of a string as JSON writes them: a surrogate pair stays
    as it is, a lone surrogate is escaped. *)
Fixpoint escape (s : jsstring) : jsstring :=
  match s with
  | [] => []
  | c :: rest =>
      match rest with
      | d :: rest' =>
          if is_high_surrogate c && is_low_surrogate d
          then c :: d :: escape rest'
          else escape_unit c ++ escape rest
      | [] => escape_unit c
      end
  end.

(** [QuoteJSONString] *)
Definition quote (s : jsstring) : jsstring := [34%N] ++ escape s ++ [34%N].

(** The decimal digits of an integer (what [Number::toString] gives for an
    integer below [10^21] in size). *)
Definition integer_toString (n : Z) : jsstring :=
  lit (DecimalString.NilZero.string_of_int (Z.to_int n)).

(** [!isFinite(n)] *)
Definition not_finite (n : float) : bool :=
  PrimFloat.is_nan n || PrimFloat.is_infinity n.

Section JsonTransform.

(** The chain of characters with [toOriginalString], the getter
    [formatted] of a record, [Number::toString] and [toFixed(2)] on
    numbers that are not integers: their code is outside the sources
    embedded here. *)
Variable CharNode : Type.
Variable toOriginalString : CharNode -> jsstring.
Variable formatted : Query.t CharNode -> jsstring * float.
Variable Number_toString : float -> jsstring.
Variable Number_toFixed2 : float -> jsstring.

Local Abbreviation Query := (Query.t CharNode).

(** [JSON.stringify(value)]: [None] is [undefined].  A property whose
    value is [undefined] is left out of its object; in an array
    [undefined] is written [null].  A number that is not finite is
    written [null]. *)
Fixpoint stringify (v : Value) : option jsstring :=
  match v with
  | Undefined => None
  | Null => Some (lit "null")
  | Str s => Some (quote s)
  | Int n => Some (integer_toString n)
  | Num n => Some (if not_finite n then lit "null" else Number_toString n)
  | Obj properties =>
      let member (p : jsstring * Value) : option jsstring :=
        text ← stringify p.2; Some (quote p.1 ++ lit ":" ++ text) in
      Some (lit "{" ++ join (lit ",") (omap member properties) ++ lit "}")
  | Arr items =>
      let element (v' : Value) : jsstring := default (lit "null") (stringify v') in
      Some (lit "[" ++ join (lit ",") (element <$> items) ++ lit "]")
  end.

(** [JSON.stringify(value)] where a string is needed. *)
Definition JSON_stringify (v : Value) : jsstring :=
  default (lit "undefined") (stringify v).

(** A field as a value. *)
Definition optional_int (n : option Z) : Value :=
  match n with Some n => Int n | None => Undefined end.

Definition nullable_num (n : option float) : Value :=
  match n with Some n => Num n | None => Null end.

(** The fields of the stream object and its option. *)
Record State : Type := mkState {
  buffer : jsstring;
  lineNum : Z
}.

Definition init : State := {| buffer := lit ""; lineNum := 0 |}.

Variable debug : option bool.

(** The object [output] of [_transform]; [now] is [Date.now()]. *)
Definition output_result (result : Query) : Value :=
  Obj [ (lit "output", Str (formatted result).1);
        (lit "score", Num (formatted result).2);
        (lit "other", Str (or_else (toOriginalString <$> Query.tempAddress result) BLANK_CHAR));
        (lit "match_level", Str (MatchLevel.str (Query.match_level result)));
        (lit "lg_code", Str (or_else (Query.lg_code result) BLANK_CHAR));
        (lit "pref", Str (or_else (Query.pref result) BLANK_CHAR));
        (lit "county", Str (or_else (Query.county result) BLANK_CHAR));
        (lit "city", Str (or_else (Query.city result) BLANK_CHAR));
        (lit "ward", Str (or_else (Query.ward result) BLANK_CHAR));
        (lit "machiaza_id", Str (or_else (Query.machiaza_id result) BLANK_CHAR));
        (lit "oaza_cho", Str (or_else (Query.oaza_cho result) BLANK_CHAR));
        (lit "chome", Str (or_else (Query.chome result) BLANK_CHAR));
        (lit "koaza", Str (or_else (Query.koaza result) BLANK_CHAR));
        (lit "blk_num", Str (or_else (Query.block result) BLANK_CHAR));
        (lit "blk_id", Str (or_else (Query.block_id result) BLANK_CHAR));
        (lit "rsdt_num", Str (or_else (Query.rsdt_num result) BLANK_CHAR));
        (lit "rsdt_id", Str (or_else (Query.rsdt_id result) BLANK_CHAR));
        (lit "rsdt_num2", Str (or_else (Query.rsdt_num2 result) BLANK_CHAR));
        (lit "rsdt2_id", Str (or_else (Query.rsdt2_id result) BLANK_CHAR));
        (lit "rsdt_addr_flg", optional_int (Query.rsdt_addr_flg result));
        (lit "prc_num1", Str (or_else (Query.prc_num1 result) BLANK_CHAR));
        (lit "prc_num2", Str (or_else (Query.prc_num2 result) BLANK_CHAR));
        (lit "prc_num3", Str (or_else (Query.prc_num3 result) BLANK_CHAR));
        (lit "prc_id", Str (or_else (Query.prc_id result) BLANK_CHAR));
        (lit "lat", nullable_num (Query.rep_lat result));
        (lit "lon", nullable_num (Query.rep_lon result));
        (lit "coordinate_level", Str (MatchLevel.str (Query.coordinate_level result))) ].

Definition output_debug (result : Query) (now : float) : Value :=
  Obj [ (lit "pref_key", optional_int (Query.pref_key result));
        (lit "city_key", optional_int (Query.city_key result));
        (lit "town_key", optional_int (Query.town_key result));
        (lit "parcel_key", optional_int (Query.parcel_key result));
        (lit "rsdtblk_key", optional_int (Query.rsdtblk_key result));
        (lit "rsdtdsp_key", optional_int (Query.rsdtdsp_key result));
        (lit "spendTime",
         Str (Number_toFixed2 ((now - Query.startTime result) / 1000)%float)) ].

Definition output (result : Query) (now : float) : Value :=
  Obj ([ (lit "query", Obj [ (lit "input", Str (Query.input_address result)) ]);
         (lit "result", output_result result) ]
       ++ match debug with
          | Some true => [ (lit "debug", output_debug result now) ]
          | _ => []
          end).

(** [_transform]: the new fields and the chunk handed to [callback]. *)
Definition _transform (this : State) (result : Query) (now : float)
  : State * jsstring :=
  let out := buffer this in
  let opening := if lineNum this >? 0 then lit "," else lit "[" in
  ({| buffer := opening ++ JSON_stringify (output result now);
      lineNum := number_inc (lineNum this) |},
   out).

(** [_final]: the three chunks it emits. *)
Definition _final (this : State) : list jsstring :=
  [buffer this; lit "]"; BREAK_AT_EOF].

(** The chunks of a whole stream, in the order they are emitted: one per
    record (with the time at which the record is handled), then those of
    [_final]. *)
Fixpoint chunks (this : State) (records : list (Query * float)) : list jsstring :=
  match records with
  | [] => _final this
  | (result, now) :: rest =>
      let '(this', out) := _transform this result now in
      out :: chunks this' rest
  end.

Definition emitted_text (records : list (Query * float)) : jsstring :=
  concat (chunks init records).

(** *** The statement of the specification *)

(** The text is a JSON array with these objects, and a line break. *)
Definition array_text (objects : list Value) : jsstring :=
  JSON_stringify (Arr objects) ++ BREAK_AT_EOF.

(** A property of an object. *)
Definition property (name : String.string) (v : Value) : option Value :=
  match v with
  | Obj properties => snd <$> List.find (fun p => bool_decide (p.1 = lit name)) properties
  | _ => None
  end.

(** The string fields of a record that the formatter writes with the
    sentinel when they are missing, under their names in the output. *)
Definition string_fields : list (String.string * (Query -> option jsstring)) :=
  [ ("lg_code", Query.lg_code); ("pref", Query.pref); ("county", Query.county);
    ("city", Query.city); ("ward", Query.ward); ("machiaza_id", Query.machiaza_id);
    ("oaza_cho", Query.oaza_cho); ("chome", Query.chome); ("koaza", Query.koaza);
    ("blk_num", Query.block); ("blk_id", Query.block_id);
    ("rsdt_num", Query.rsdt_num); ("rsdt_id", Query.rsdt_id);
    ("rsdt_num2", Query.rsdt_num2); ("rsdt2_id", Query.rsdt2_id);
    ("prc_num1", Query.prc_num1); ("prc_num2", Query.prc_num2);
    ("prc_num3", Query.prc_num3); ("prc_id", Query.prc_id) ]%string.

(** The serialized objects of a stream. *)
Definition objects_of (records : list (Query * float)) : list Value :=
  (fun '(result, now) => output result now) <$> records.

(** *** What is emitted *)

Lemma stringify_Arr items :
  stringify (Arr items) =
  Some (lit "[" ++ join (lit ",") ((fun v => default (lit "null") (stringify v)) <$> items)
        ++ lit "]").
Proof. reflexivity. Qed.


Lemma number_inc_pos n : 0 < n -> 0 < number_inc n.
Proof. unfold number_inc. destruct (2 ^ 53 <=? n); lia. Qed.


Lemma chunks_cons this result now rest :
  chunks this ((result, now) :: rest) =
  buffer this ::
  chunks {| buffer := (if lineNum this >? 0 then lit "," else lit "[")
                      ++ JSON_stringify (output result now);
            lineNum := number_inc (lineNum this) |} rest.
Proof. reflexivity. Qed.



(** In the object of a record a missing (or empty) string field is the
    sentinel, and a missing coordinate is [null]. *)
Lemma missing_fields result now :
  property "result" (output result now) = Some (output_result result) /\
  Forall (fun '(name, field) =>
            property name (output_result result) =
            Some (Str (or_else (field result) BLANK_CHAR)))
         string_fields /\
  property "lat" (output_result result) = Some (nullable_num (Query.rep_lat result)) /\
  property "lon" (output_result result) = Some (nullable_num (Query.rep_lon result)) /\
  (forall x : option jsstring, x = None -> or_else x BLANK_CHAR = lit "") /\
  nullable_num None = Null /\ stringify Null = Some (lit "null").
Proof.
  split; [reflexivity|]. split; [repeat constructor|].
  split; [reflexivity|]. split; [reflexivity|].
  split; [by intros x ->|]. by split.
Qed.

(** C8, on the code: for a stream without any record [_final] emits the
    empty buffer, the closing bracket and the line break, so the text is
    ["]"] and a line break, which is the text of no array (that of the
    empty array is ["[]"] and a line break). *)
Theorem empty_stream_is_not_an_array :
  emitted_text [] = lit "]" ++ BREAK_AT_EOF /\
  array_text [] = lit "[]" ++ BREAK_AT_EOF /\
  forall objects, emitted_text [] <> array_text objects.
Proof.
  split; [reflexivity|]. split; [reflexivity|].
  intros objects. unfold array_text, JSON_stringify. rewrite stringify_Arr.
  discriminate.
Qed.

(** *** Further properties of the formatter *)

(** The texts the buffer holds in turn: the object of the first record
    behind the opening bracket, that of every later record behind a comma. *)
Definition pieces (records : list (Query * float)) : list jsstring :=
  match objects_of records with
  | [] => []
  | v :: rest =>
      (lit "[" ++ JSON_stringify v) :: ((fun v' => lit "," ++ JSON_stringify v') <$> rest)
  end.

Lemma chunks_list_later records : forall this,
  0 < lineNum this ->
  chunks this records =
  buffer this :: ((fun v => lit "," ++ JSON_stringify v) <$> objects_of records)
  ++ [lit "]"; BREAK_AT_EOF].
Proof.
  induction records as [|[result now] rest IH]; intros this Hpos.
  - reflexivity.
  - rewrite chunks_cons. destruct (lineNum this >? 0) eqn:Hgt; [|lia].
    rewrite IH by (apply number_inc_pos; exact Hpos). reflexivity.
Qed.

(** Every call of [_transform] hands to [callback] the text the call
    before it has completed, the first call an empty chunk; the object of
    the last record is emitted only by [_final], before the closing
    bracket and the line break. *)
Theorem chunks_lag_one_record (records : list (Query * float)) :
  chunks init records = [] :: pieces records ++ [lit "]"; BREAK_AT_EOF].
Proof.
  destruct records as [|[result now] rest]; [reflexivity|].
  rewrite chunks_cons.
  rewrite chunks_list_later by (change (0 < number_inc 0); by apply Z.ltb_lt).
  reflexivity.
Qed.


End JsonTransform.

(** *** A small stream *)







End Json.

(** ** geocodingAction and downloadDataset: initialisation once per process *)

Module Init.
Import Js.

Section Process.

(** The parameters of the setup, the process-wide container with what it
    holds, the two setups of the container and the work of
    [downloadDataset.start] behind its guard: their code is outside the
    sources embedded here.  Each may fail, and changes the container. *)
Variable setupContainerParams : Type.
Variable Container : Type.
Variable setupContainer setupContainerForTest :
  setupContainerParams -> Container -> Result () * Container.
Variable download : setupContainerParams -> Container -> Result () * Container.

(** The variable [initialized] of each of the two namespaces, the
    container, and the parameters of the setups that were run, latest
    first. *)
Record Process : Type := mkProcess {
  geocoding_initialized : bool;
  download_initialized : bool;
  container : Container;
  setups : list setupContainerParams
}.

Definition start_of_process (c : Container) : Process :=
  {| geocoding_initialized := false; download_initialized := false;
     container := c; setups := [] |}.

Definition already_initialized : Exception := Error (lit "Already initialized").

Definition must_run_init : Exception :=
  Error (lit "Must run init() or initForTest() before involving this function").

(** [geocodingAction.init] and [geocodingAction.initForTest] *)
Definition geocodingAction_init (params : setupContainerParams) (ps : Process)
  : Result () * Process :=
  if geocoding_initialized ps then (Throw already_initialized, ps)
  else
    let '(r, c) := setupContainer params (container ps) in
    (r, {| geocoding_initialized := true;
           download_initialized := download_initialized ps;
           container := c;
           setups := params :: setups ps |}).

Definition geocodingAction_initForTest (params : setupContainerParams) (ps : Process)
  : Result () * Process :=
  if geocoding_initialized ps then (Throw already_initialized, ps)
  else
    let '(r, c) := setupContainerForTest params (container ps) in
    (r, {| geocoding_initialized := true;
           download_initialized := download_initialized ps;
           container := c;
           setups := params :: setups ps |}).

(** [downloadDataset.init] and [downloadDataset.start] *)
Definition downloadDataset_init (params : setupContainerParams) (ps : Process)
  : Result () * Process :=
  if download_initialized ps then (Throw already_initialized, ps)
  else
    let '(r, c) := setupContainer params (container ps) in
    (r, {| geocoding_initialized := geocoding_initialized ps;
           download_initialized := true;
           container := c;
           setups := params :: setups ps |}).

Definition downloadDataset_start (params : setupContainerParams) (ps : Process)
  : Result () * Process :=
  if negb (download_initialized ps) then (Throw must_run_init, ps)
  else
    let '(r, c) := download params (container ps) in
    (r, {| geocoding_initialized := geocoding_initialized ps;
           download_initialized := download_initialized ps;
           container := c;
           setups := setups ps |}).

(** The calls a process makes, and what they return, in order. *)
Inductive Call : Type :=
  | GeocodingInit (params : setupContainerParams)
  | GeocodingInitForTest (params : setupContainerParams)
  | DownloadInit (params : setupContainerParams)
  | DownloadStart (params : setupContainerParams).

Definition call (c : Call) (ps : Process) : Result () * Process :=
  match c with
  | GeocodingInit params => geocodingAction_init params ps
  | GeocodingInitForTest params => geocodingAction_initForTest params ps
  | DownloadInit params => downloadDataset_init params ps
  | DownloadStart params => downloadDataset_start params ps
  end.

Fixpoint calls (cs : list Call) (ps : Process) : list (Result ()) * Process :=
  match cs with
  | [] => ([], ps)
  | c :: rest =>
      let '(r, ps') := call c ps in
      let '(rs, ps'') := calls rest ps' in
      (r :: rs, ps'')
  end.

Definition is_geocoding_init (c : Call) : bool :=
  match c with GeocodingInit _ | GeocodingInitForTest _ => true | _ => false end.

Definition is_download_init (c : Call) : bool :=
  match c with DownloadInit _ => true | _ => false end.

(** The calls of [downloadDataset.init] among the calls made that returned
    without throwing. *)
Fixpoint download_inits_done (cs : list Call) (rs : list (Result ())) : nat :=
  match cs, rs with
  | DownloadInit _ :: cs', Ok _ :: rs' => S (download_inits_done cs' rs')
  | _ :: cs', _ :: rs' => download_inits_done cs' rs'
  | _, _ => 0
  end.

(** *** The statement of the specification *)

(** [downloadDataset.start] throws the demand for [init] as long as no
    call of [downloadDataset.init] has returned without throwing. *)
Definition start_demands_successful_init (c : Container) : Prop :=
  forall cs params,
    download_inits_done cs (calls cs (start_of_process c)).1 = 0%nat ->
    (downloadDataset_start params (calls cs (start_of_process c)).2).1 = Throw must_run_init.

(** *** The flags along the calls *)

(** A flag, once set, stays set; it is set by the first call of an [init]
    of its namespace, whatever that call returns; the setups that were run
    are never forgotten. *)
Lemma call_flags c ps :
  let ps' := (call c ps).2 in
  geocoding_initialized ps' = geocoding_initialized ps || is_geocoding_init c /\
  download_initialized ps' = download_initialized ps || is_download_init c.
Proof.
  destruct c as [p|p|p|p]; simpl;
    unfold geocodingAction_init, geocodingAction_initForTest,
           downloadDataset_init, downloadDataset_start.
  - destruct (geocoding_initialized ps) eqn:Hg; simpl.
    + by rewrite Hg, !orb_false_r.
    + destruct (setupContainer p _). simpl. by rewrite orb_false_r.
  - destruct (geocoding_initialized ps) eqn:Hg; simpl.
    + by rewrite Hg, !orb_false_r.
    + destruct (setupContainerForTest p _). simpl. by rewrite orb_false_r.
  - destruct (download_initialized ps) eqn:Hd; simpl.
    + by rewrite Hd, !orb_false_r.
    + destruct (setupContainer p _). simpl. by rewrite orb_false_r.
  - destruct (download_initialized ps) eqn:Hd; simpl.
    + destruct (download p _). simpl. by rewrite !orb_false_r.
    + by rewrite Hd, !orb_false_r.
Qed.

Lemma calls_flags cs : forall ps,
  let ps' := (calls cs ps).2 in
  geocoding_initialized ps' = geocoding_initialized ps || existsb is_geocoding_init cs /\
  download_initialized ps' = download_initialized ps || existsb is_download_init cs.
Proof.
  induction cs as [|c rest IH]; intros ps; simpl.
  - by rewrite !orb_false_r.
  - pose proof (call_flags c ps) as [Hg Hd]. simpl in Hg, Hd.
    destruct (call c ps) as [r ps1]. simpl in Hg, Hd.
    pose proof (IH ps1) as [Hg' Hd']. simpl in Hg', Hd'.
    destruct (calls rest ps1) as [rs ps2]. simpl in *.
    rewrite Hg', Hd', Hg, Hd, !orb_assoc. done.
Qed.

(** C10, as the code has it: once an [init] of a namespace has been
    called, whatever it returned, every further call of an [init] of that
    namespace throws [Already initialized] and changes nothing (no setup
    of the container is run again); and as long as [downloadDataset.init]
    has not been called at all, [downloadDataset.start] throws the demand
    for [init] and changes nothing. *)
Theorem init_runs_at_most_once (c : Container) (cs : list Call)
    (params : setupContainerParams) :
  let ps := (calls cs (start_of_process c)).2 in
  (existsb is_geocoding_init cs = true ->
     geocodingAction_init params ps = (Throw already_initialized, ps) /\
     geocodingAction_initForTest params ps = (Throw already_initialized, ps)) /\
  (existsb is_download_init cs = true ->
     downloadDataset_init params ps = (Throw already_initialized, ps)) /\
  (existsb is_download_init cs = false ->
     downloadDataset_start params ps = (Throw must_run_init, ps)).
Proof.
  intros ps. pose proof (calls_flags cs (start_of_process c)) as [Hg Hd].
  fold ps in Hg, Hd. simpl in Hg, Hd.
  split; [|split].
  - intros H. rewrite H in Hg.
    unfold geocodingAction_init, geocodingAction_initForTest. by rewrite Hg.
  - intros H. rewrite H in Hd. unfold downloadDataset_init. by rewrite Hd.
  - intros H. rewrite H in Hd. unfold downloadDataset_start. by rewrite Hd.
Qed.

End Process.

(** *** A process whose setup fails *)

(** The setup of the container fails (the data directory cannot be
    opened, say) and leaves the container as it was; the work of [start]
    itself would go through. *)
Definition failing_setup (params : String.string) (c : nat) : Result () * nat :=
  (Throw (Error (lit "unable to open database file")), c).

Definition download_ok (params : String.string) (c : nat) : Result () * nat :=
  (Ok (), S c).

Definition after_failed_init : Process String.string nat :=
  (calls String.string nat failing_setup failing_setup download_ok
         [DownloadInit String.string "data"%string]
         (start_of_process String.string nat 0%nat)).2.

(** C10, as stated, fails: [downloadDataset.init] is called and throws,
    because the setup of the container fails; no [init] has succeeded, and
    yet [downloadDataset.start] passes its guard and does its work. *)
Lemma start_runs_after_failed_init :
  (calls String.string nat failing_setup failing_setup download_ok
         [DownloadInit String.string "data"%string]
         (start_of_process String.string nat 0%nat)).1
    = [Throw (Error (lit "unable to open database file"))] /\
  (downloadDataset_start String.string nat download_ok "data"%string after_failed_init).1
    = Ok () /\
  ~ start_demands_successful_init String.string nat failing_setup failing_setup
      download_ok 0%nat.
Proof.
  split; [reflexivity|]. split; [reflexivity|].
  intros H. specialize (H [DownloadInit String.string "data"%string] "data"%string eq_refl).
  discriminate H.
Qed.

Lemma init_runs_at_most_once_witness :
  existsb (is_geocoding_init String.string)
          [GeocodingInit String.string "data"%string] = true /\
  existsb (is_download_init String.string)
          [GeocodingInit String.string "data"%string] = false /\
  let ps := (calls String.string nat failing_setup failing_setup download_ok
                   [GeocodingInit String.string "data"%string]
                   (start_of_process String.string nat 0%nat)).2 in
  geocodingAction_init String.string nat failing_setup "data"%string ps
    = (Throw (already_initialized), ps) /\
  downloadDataset_start String.string nat download_ok "data"%string ps
    = (Throw (must_run_init), ps).
Proof.
  assert (existsb (is_geocoding_init String.string)
            [GeocodingInit String.string "data"%string] = true) as Hg by reflexivity.
  assert (existsb (is_download_init String.string)
            [GeocodingInit String.string "data"%string] = false) as Hd by reflexivity.
  split; [exact Hg|]. split; [exact Hd|]. intros ps.
  pose proof (init_runs_at_most_once String.string nat failing_setup failing_setup
                download_ok 0%nat [GeocodingInit String.string "data"%string]
                "data"%string) as (H1 & _ & H3).
  split; [exact (proj1 (H1 Hg)) | exact (H3 Hd)].
Defined.

End Init.

(** ** CsvTransform: the CSV formatter *)

Module Csv.
Import Js.

(** Modelled from the spec: the enumeration [GeocodeResultFields], with the
    members the spec lists for the columns (they are the cases of the
    [switch] of [_transform]). *)
Inductive GeocodeResultFields : Type :=
  | INPUT
  | LATITUDE
  | LONGITUDE
  | PREFECTURE
  | CITY
  | LG_CODE
  | TOWN
  | TOWN_ID
  | OTHER
  | BLOCK
  | BLOCK_ID.

(** The fields of a [GeocodeResult] that [_transform] reads.  A string
    field that is [undefined] is [None]; so is a coordinate that is [null]
    or [undefined]. *)
Record GeocodeResult : Type := mkResult {
  input : option jsstring;
  lat : option float;
  lon : option float;
  prefecture : option jsstring;
  city : option jsstring;
  lg_code : option jsstring;
  town : option jsstring;
  town_id : option jsstring;
  other : option jsstring;
  block : option jsstring;
  block_id : option jsstring
}.

Section CsvTransform.

(** [column.toString()] (the values of the members of the enumeration) and
    [Number::toString]: outside the sources embedded here. *)
Variable GeocodeResultFields_toString : GeocodeResultFields -> jsstring.
Variable Number_toString : float -> jsstring.

Record Options : Type := mkOptions {
  columns : list GeocodeResultFields;
  skipHeader : bool
}.

Variable options : Options.

(** The field [rows] of the stream object. *)
Definition State : Type := list jsstring.

(** [`"${field}"`]: a template literal writes [undefined] as that word. *)
Definition quoted (field : option jsstring) : jsstring :=
  [34%N] ++ default (lit "undefined") field ++ [34%N].

(** [coordinate?.toString() || ''] *)
Definition coordinate (n : option float) : jsstring :=
  or_else (Number_toString <$> n) (lit "").

(** The constructor: the header goes into [rows] unless it is skipped. *)
Definition new : State :=
  if skipHeader options then []
  else [Json.join (lit ", ") (GeocodeResultFields_toString <$> columns options)].

(** The callback of [this.options.columns.map]. *)
Definition cell (result : GeocodeResult) (column : GeocodeResultFields) : jsstring :=
  match column with
  | INPUT => quoted (input result)
  | LATITUDE => coordinate (lat result)
  | LONGITUDE => coordinate (lon result)
  | PREFECTURE => quoted (prefecture result)
  | CITY => quoted (city result)
  | LG_CODE => quoted (lg_code result)
  | TOWN => quoted (town result)
  | TOWN_ID => quoted (town_id result)
  | OTHER => quoted (other result)
  | BLOCK => quoted (block result)
  | BLOCK_ID => quoted (block_id result)
  end.

Definition line (result : GeocodeResult) : jsstring :=
  Json.join (lit ", ") (cell result <$> columns options).

(** [_transform]: the line and an empty string are pushed to [rows], the
    rows are joined by line breaks and handed to [callback], and [rows] is
    emptied. *)
Definition _transform (rows : State) (result : GeocodeResult) : State * jsstring :=
  let rows := rows ++ [line result] in
  let rows := rows ++ [lit ""] in
  let csvLines := Json.join [10%N] rows in
  ([], csvLines).

(** The chunks of a whole stream.  The class has no [_flush] and no
    [_final]: the end of the stream emits nothing. *)
Fixpoint chunks (rows : State) (results : list GeocodeResult) : list jsstring :=
  match results with
  | [] => []
  | result :: rest =>
      let '(rows', csvLines) := _transform rows result in
      csvLines :: chunks rows' rest
  end.

Definition header : jsstring :=
  Json.join (lit ", ") (GeocodeResultFields_toString <$> columns options).

Lemma chunks_emptied results :
  chunks [] results = (fun result => line result ++ [10%N]) <$> results.
Proof.
  induction results as [|result rest IH]; [done|].
  cbn [chunks _transform]. rewrite IH. cbn [fmap list_fmap]. by f_equal.
Qed.

(** Every record is handed on as its line and a line break, in its own
    chunk; the header and a line break come in front of the first line,
    unless the header is skipped.  A stream without records emits
    nothing, not even the header. *)
Theorem chunks_are_lines (results : list GeocodeResult) :
  chunks new results =
  match results with
  | [] => []
  | first :: rest =>
      ((if skipHeader options then [] else header ++ [10%N]) ++ line first ++ [10%N])
      :: ((fun result => line result ++ [10%N]) <$> rest)
  end.
Proof.
  destruct results as [|first rest]; [done|].
  cbn [chunks _transform]. rewrite chunks_emptied. f_equal.
  unfold new. destruct (skipHeader options).
  - cbn [Json.join app]. by change (lit "") with (@nil N).
  - fold header. cbn [Json.join app]. change (lit "") with (@nil N).
    by rewrite <- !app_assoc.
Qed.

End CsvTransform.

End Csv.

(** ** geocodingAction.start: the head of the pipeline and the wildcard helper *)

Module Geocoding.
Import Js.


(** The characters of the class [[一-龯ぁ-んァ-ン]]. *)
Definition is_kanji_or_kana (c : N) : bool :=
  ((19968 <=? c) && (c <=? 40879) || (12353 <=? c) && (c <=? 12435)
   || (12449 <=? c) && (c <=? 12531))%N.

(** [string.replace(pattern, '($1|\\?)')] with the pattern of the source
    (flag [g]): a negative lookbehind for an opening bracket followed by
    any number of characters other than a closing bracket, then one
    character of the class as group 1, then a negative lookahead for a
    question mark.  From the left: [inside] says whether an opening
    bracket precedes the place with no closing bracket in between (the
    lookbehind).  A character of the class that is not [inside] and is not
    followed by a question mark is replaced by itself in parentheses with
    the alternative of an escaped question mark. *)
Fixpoint insert_wildcards (inside : bool) (s : jsstring) : jsstring :=
  match s with
  | [] => []
  | c :: rest =>
      let question_follows := match rest with d :: _ => (d =? 63)%N | [] => false end in
      let inside' := if (c =? 91)%N then true else if (c =? 93)%N then false else inside in
      (if negb inside && is_kanji_or_kana c && negb question_follows
       then lit "(" ++ [c] ++ lit "|\?)"
       else [c])
      ++ insert_wildcards inside' rest
  end.

Definition insertWildcardMatching (string : jsstring) : jsstring :=
  insert_wildcards false string.



(** The example of the source: [^愛知郡愛荘町]. *)
Example insertWildcardMatching_aichi :
  insertWildcardMatching ([94; 24859; 30693; 37089; 24859; 33624; 30010]%N) =
  [94%N] ++ lit "(" ++ [24859%N] ++ lit "|\?)" ++ lit "(" ++ [30693%N] ++ lit "|\?)"
  ++ lit "(" ++ [37089%N] ++ lit "|\?)" ++ lit "(" ++ [24859%N] ++ lit "|\?)"
  ++ lit "(" ++ [33624%N] ++ lit "|\?)" ++ lit "(" ++ [30010%N] ++ lit "|\?)".
Proof. reflexivity. Qed.

Section ConvertToQuery.

(** [Query.create(input)]: the class is outside the sources embedded here. *)
Variable Query : Type.
Variable Query_create : jsstring -> Query.








End ConvertToQuery.

Lemma insert_wildcards_plain s : forall inside,
  Forall (fun c => is_kanji_or_kana c = false) s -> insert_wildcards inside s = s.
Proof.
  induction s as [|c rest IH]; intros inside Hs; [done|].
  inversion Hs as [|? ? Hc Hrest]; subst. cbn [insert_wildcards].
  rewrite Hc, andb_false_r. simpl. f_equal. by apply IH.
Qed.


Lemma insert_wildcards_sublist s : forall inside,
  sublist s (insert_wildcards inside s).
Proof.
  induction s as [|c rest IH]; intros inside; [constructor|].
  cbn [insert_wildcards].
  destruct (negb inside && is_kanji_or_kana c && negb _).
  - change (lit "(" ++ [c] ++ lit "|\?)") with ([40%N] ++ c :: [124; 92; 63; 41]%N).
    rewrite <- app_assoc. apply sublist_inserts_l.
    change ((c :: ?w) ++ ?x) with (c :: (w ++ x)).
    apply sublist_skip, sublist_inserts_l, IH.
  - change ([c] ++ ?x) with (c :: x). apply sublist_skip, IH.
Qed.

Lemma insert_wildcards_inside body :
  Forall (fun c => c <> 93%N) body -> insert_wildcards true body = body.
Proof.
  induction body as [|c rest IH]; intros Hb; [done|].
  inversion Hb as [|? ? Hc Hrest]; subst. cbn [insert_wildcards negb andb].
  change ([c] ++ ?x) with (c :: x). f_equal. apply N.eqb_neq in Hc. rewrite Hc.
  destruct (c =? 91)%N; by apply IH.
Qed.

(** [insertWildcardMatching] only inserts: the characters of the pattern
    are all in the result, in their order.  A pattern without kanji and
    kana comes back unchanged, and so does a bracket expression that is
    open at the head of the pattern. *)
Theorem insertWildcardMatching_only_inserts (pattern : jsstring) :
  sublist pattern (insertWildcardMatching pattern) /\
  (Forall (fun c => is_kanji_or_kana c = false) pattern ->
   insertWildcardMatching pattern = pattern) /\
  (Forall (fun c => c <> 93%N) pattern ->
   insertWildcardMatching (91%N :: pattern) = 91%N :: pattern).
Proof.
  split; [apply insert_wildcards_sublist|]. split; [apply insert_wildcards_plain|].
  intros H. unfold insertWildcardMatching. cbn [insert_wildcards].
  change (is_kanji_or_kana 91) with false. cbn [negb andb].
  change ([91%N] ++ ?x) with (91%N :: x). f_equal.
  change (if (91 =? 91)%N then true else _) with true.
  by apply insert_wildcards_inside.
Qed.


Lemma insertWildcardMatching_only_inserts_witness :
  Forall (fun c => is_kanji_or_kana c = false) (lit "^[a-z]+$") /\
  insertWildcardMatching (lit "^[a-z]+$") = lit "^[a-z]+$" /\
  Forall (fun c => c <> 93%N) [24066; 30010; 26449]%N /\
  insertWildcardMatching (91%N :: [24066; 30010; 26449]%N) =
    91%N :: [24066; 30010; 26449]%N.
Proof.
  assert (Forall (fun c => is_kanji_or_kana c = false) (lit "^[a-z]+$")) as H
    by (repeat constructor).
  assert (Forall (fun c => c <> 93%N) [24066; 30010; 26449]%N) as H'
    by (repeat constructor; discriminate).
  split; [exact H|].
  split; [exact (proj1 (proj2 (insertWildcardMatching_only_inserts _)) H)|].
  split; [exact H'|].
  exact (proj2 (proj2 (insertWildcardMatching_only_inserts _)) H').
Defined.

End Geocoding.

(** ** The entry points of the two commands, and the work of downloadDataset.start *)

Module Actions.
Import Js.

(** The parameters of the setup of the container and of the geocoding. *)
Record setupContainerParams : Type := mkSetup {
  dataDir : jsstring;
  ckanId : jsstring
}.

Record GeocodingParams : Type := mkGeocoding {
  source : jsstring;
  destination : jsstring;
  geocoding_dataDir : jsstring;
  resourceId : jsstring;
  format : jsstring;
  fuzzy : option jsstring
}.

Section EntryPoints.

(** The container, its setups, the pipeline that [geocodingAction.start]
    builds and runs, and the work of [downloadDataset.start] behind its
    guard, as in [Init]. *)
Variable Container : Type.
Variable setupContainer setupContainerForTest :
  setupContainerParams -> Container -> Result () * Container.
Variable geocode : GeocodingParams -> Container -> Result () * Container.
Variable download : setupContainerParams -> Container -> Result () * Container.

Local Abbreviation Process := (Init.Process setupContainerParams Container).

(** [geocodingAction.start]: it has no guard of its own. *)
Definition geocodingAction_start (params : GeocodingParams) (ps : Process)
  : Result () * Process :=
  let '(r, c) := geocode params (Init.container _ _ ps) in
  (r, {| Init.geocoding_initialized := Init.geocoding_initialized _ _ ps;
         Init.download_initialized := Init.download_initialized _ _ ps;
         Init.container := c;
         Init.setups := Init.setups _ _ ps |}).

(** [onGeocodingAction]: [await init(...)], then [await start(params)]. *)
Definition onGeocodingAction (params : GeocodingParams) (ps : Process)
  : Result () * Process :=
  let '(r, ps1) :=
    Init.geocodingAction_init _ _ setupContainer
      {| dataDir := geocoding_dataDir params; ckanId := resourceId params |} ps in
  match r with
  | Throw e => (Throw e, ps1)
  | Ok _ => geocodingAction_start params ps1
  end.

(** [onDownloadAction]: [await init(params)], then [await start(params)]. *)
Definition onDownloadAction (params : setupContainerParams) (ps : Process)
  : Result () * Process :=
  let '(r, ps1) := Init.downloadDataset_init _ _ setupContainer params ps in
  match r with
  | Throw e => (Throw e, ps1)
  | Ok _ => Init.downloadDataset_start _ _ download params ps1
  end.

Lemma onGeocodingAction_sets_flag params ps :
  Init.geocoding_initialized _ _ (onGeocodingAction params ps).2 = true.
Proof.
  unfold onGeocodingAction, Init.geocodingAction_init, geocodingAction_start.
  destruct (Init.geocoding_initialized _ _ ps) eqn:Hg; [done|].
  destruct (setupContainer _ _) as [[[]|e] c]; simpl; [|done].
  by destruct (geocode params c).
Qed.

Lemma onDownloadAction_sets_flag params ps :
  Init.download_initialized _ _ (onDownloadAction params ps).2 = true.
Proof.
  unfold onDownloadAction, Init.downloadDataset_init, Init.downloadDataset_start.
  destruct (Init.download_initialized _ _ ps) eqn:Hd; [done|].
  destruct (setupContainer _ _) as [[[]|e] c]; simpl; [|done].
  by destruct (download params c).
Qed.

(** [onGeocodingAction] works once in a process: after a call of it,
    whatever that call returned, every further call throws
    [Already initialized] and neither sets up the container nor starts the
    pipeline. *)
Theorem onGeocodingAction_only_once (first again : GeocodingParams) (ps : Process) :
  let ps1 := (onGeocodingAction first ps).2 in
  onGeocodingAction again ps1 = (Throw Init.already_initialized, ps1).
Proof.
  intros ps1. pose proof (onGeocodingAction_sets_flag first ps) as Hg. fold ps1 in Hg.
  unfold onGeocodingAction, Init.geocodingAction_init. by rewrite Hg.
Qed.

(** [onDownloadAction] works once in a process: after a call of it,
    whatever that call returned (also when no update was available),
    every further call throws [Already initialized] and neither checks for
    an update nor downloads. *)
Theorem onDownloadAction_only_once (first again : setupContainerParams) (ps : Process) :
  let ps1 := (onDownloadAction first ps).2 in
  onDownloadAction again ps1 = (Throw Init.already_initialized, ps1).
Proof.
  intros ps1. pose proof (onDownloadAction_sets_flag first ps) as Hd. fold ps1 in Hd.
  unfold onDownloadAction, Init.downloadDataset_init. by rewrite Hd.
Qed.

End EntryPoints.

(** *** The work of downloadDataset.start *)

Section Start.

(** [path.join], [path.dirname], the error [container.resolve] throws for
    a token that is not registered, the [AbrgError] with
    [ERROR_NO_UPDATE_IS_AVAILABLE] and the level [INFO], and the list of
    files [fsIterator] finds: outside the sources embedded here. *)
Variable path_join : jsstring -> jsstring -> jsstring.
Variable path_dirname : jsstring -> jsstring.
Variable not_registered : String.string -> Exception.
Variable no_update_is_available : Exception.
Variable CsvFiles : Type.

(** The messages [start] logs. *)
Inductive AbrgMessage : Type :=
  | CHECKING_UPDATE
  | START_DOWNLOADING_NEW_DATASET
  | EXTRACTING_THE_DATA
  | LOADING_INTO_DATABASE.

(** What [start] does to its surroundings, in program order. *)
Inductive Action : Type :=
  | Resolve (token : String.string)
  | Mkdir (dir : jsstring)
  | Info (message : AbrgMessage)
  | UpdateCheck
  | Download (dstFilePath : jsstring)
  | Mkdtemp (prefix : jsstring)
  | ProgressStart
  | FsIterator (tmpDir downloadDir ext : jsstring)
  | ProgressRemove
  | LoadDataset (csvFiles : CsvFiles)
  | DbClose
  | Rm (tmpDir : jsstring).

(** How the surroundings answer: which tokens the container knows,
    whether a directory exists, and what each awaited call gives. *)
Record World : Type := mkWorld {
  registered : String.string -> bool;
  existsSync : jsstring -> bool;
  mkdir : jsstring -> Result ();
  updateCheck : Result bool;
  download_to : jsstring -> Result ();
  mkdtemp : jsstring -> Result jsstring;
  fsIterator : jsstring -> jsstring -> Result CsvFiles;
  loadDatasetProcess : CsvFiles -> Result ();
  rm : jsstring -> Result ()
}.

Variable w : World.

(** A step of [start]: its result and the actions it took. *)
Definition Step (A : Type) : Type := Result A * list Action.

Definition andThen {A B : Type} (m : Step A) (k : A -> Step B) : Step B :=
  match m with
  | (Ok a, done) => let '(r, more) := k a in (r, done ++ more)
  | (Throw e, done) => (Throw e, done)
  end.

Definition act {A : Type} (a : Action) (r : Result A) : Step A := (r, [a]).

Definition resolve (token : String.string) : Step () :=
  if registered w token then (Ok (), [Resolve token])
  else (Throw (not_registered token), [Resolve token]).

Definition info (message : AbrgMessage) : Step () := (Ok (), [Info message]).

(** The body of [start] behind its guard. *)
Definition start_body (params : setupContainerParams) : Step () :=
  andThen (resolve "DATABASE") (fun _ =>
  andThen (resolve "LOGGER") (fun _ =>
  andThen (resolve "PROGRESS_BAR") (fun _ =>
  andThen (resolve "MULTI_PROGRESS_BAR") (fun _ =>
  let downloadDir := path_join (dataDir params) (lit "download") in
  andThen (if existsSync w downloadDir then (Ok (), [])
           else act (Mkdir downloadDir) (mkdir w downloadDir)) (fun _ =>
  andThen (resolve "DATASET_URL") (fun _ =>
  andThen (resolve "USER_AGENT") (fun _ =>
  andThen (info CHECKING_UPDATE) (fun _ =>
  andThen (act UpdateCheck (updateCheck w)) (fun updateAvailable =>
  if negb updateAvailable then (Throw no_update_is_available, [])
  else
  andThen (info START_DOWNLOADING_NEW_DATASET) (fun _ =>
  let dstFilePath := downloadDir ++ lit "/" ++ ckanId params ++ lit ".zip" in
  andThen (act (Download dstFilePath) (download_to w dstFilePath)) (fun _ =>
  andThen (info EXTRACTING_THE_DATA) (fun _ =>
  andThen (act (Mkdtemp (path_dirname dstFilePath))
               (mkdtemp w (path_dirname dstFilePath))) (fun tmpDir =>
  andThen (Ok (), [ProgressStart]) (fun _ =>
  andThen (act (FsIterator tmpDir downloadDir (lit ".csv"))
               (fsIterator w tmpDir downloadDir)) (fun csvFiles =>
  andThen (Ok (), [ProgressRemove]) (fun _ =>
  andThen (info LOADING_INTO_DATABASE) (fun _ =>
  andThen (act (LoadDataset csvFiles) (loadDatasetProcess w csvFiles)) (fun _ =>
  andThen (Ok (), [DbClose]) (fun _ =>
  act (Rm tmpDir) (rm w tmpDir)))))))))))))))))))).

(** [downloadDataset.start], with the actions it takes kept in the
    container. *)
Definition start (params : setupContainerParams)
    (ps : Init.Process setupContainerParams (list Action))
  : Result () * Init.Process setupContainerParams (list Action) :=
  Init.downloadDataset_start _ _
    (fun params done => let '(r, more) := start_body params in (r, done ++ more))
    params ps.

(** The actions that fetch or load data, or close the database. *)
Definition changes_data (a : Action) : bool :=
  match a with
  | Download _ | Mkdtemp _ | FsIterator _ _ _ | LoadDataset _ | DbClose | Rm _ => true
  | _ => false
  end.

(** Case analysis along the body: every test and every answer of the
    surroundings in turn. *)
Ltac along_the_body :=
  unfold start_body, resolve, info, act;
  repeat (cbn [andThen negb];
          match goal with
          | |- context [if registered w ?t then _ else _] =>
              destruct (registered w t) eqn:?
          | |- context [if existsSync w ?d then _ else _] =>
              destruct (existsSync w d) eqn:?
          | |- context [mkdir w ?d] => destruct (mkdir w d) as [[]|?] eqn:?
          | |- context [updateCheck w] => destruct (updateCheck w) as [[|]|?] eqn:?
          | |- context [download_to w ?d] => destruct (download_to w d) as [[]|?] eqn:?
          | |- context [mkdtemp w ?d] => destruct (mkdtemp w d) as [?|?] eqn:?
          | |- context [fsIterator w ?a ?b] => destruct (fsIterator w a b) as [?|?] eqn:?
          | |- context [loadDatasetProcess w ?f] =>
              destruct (loadDatasetProcess w f) as [[]|?] eqn:?
          | |- context [rm w ?d] => destruct (rm w d) as [[]|?] eqn:?
          end);
  cbn [andThen negb app].

(** When the update check says that no update is available, [start]
    throws, and it has neither downloaded nor loaded anything nor closed
    the database; what it throws is the [AbrgError] for
    [ERROR_NO_UPDATE_IS_AVAILABLE] when the guard and everything before
    the check went through. *)
Theorem no_update_stops_before_download (params : setupContainerParams)
    (ps : Init.Process setupContainerParams (list Action)) :
  updateCheck w = Ok false ->
  (exists e more,
     (start params ps).1 = Throw e /\
     Init.container _ _ (start params ps).2 = Init.container _ _ ps ++ more /\
     Forall (fun a => changes_data a = false) more) /\
  (Init.download_initialized _ _ ps = true ->
   (forall token, registered w token = true) ->
   existsSync w (path_join (dataDir params) (lit "download")) = true ->
   (start params ps).1 = Throw no_update_is_available).
Proof.
  intros Hno. unfold start, Init.downloadDataset_start. split.
  - destruct (Init.download_initialized _ _ ps); simpl.
    + assert (exists e more, start_body params = (Throw e, more) /\
                Forall (fun a => changes_data a = false) more) as (e & more & -> & Hq).
      { along_the_body; try congruence;
          (eexists _, _; split; [reflexivity | by repeat constructor]). }
      by exists e, more.
    + exists Init.must_run_init, []. by rewrite app_nil_r.
  - intros -> Hreg Hex. simpl.
    assert (start_body params =
            (Throw no_update_is_available,
             [Resolve "DATABASE"; Resolve "LOGGER"; Resolve "PROGRESS_BAR";
              Resolve "MULTI_PROGRESS_BAR"; Resolve "DATASET_URL"; Resolve "USER_AGENT";
              Info CHECKING_UPDATE; UpdateCheck])) as ->; [|done].
    unfold start_body, resolve, info, act.
    rewrite !Hreg, Hex, Hno. reflexivity.
Qed.

(** The database is closed only when the loading has succeeded, and the
    temporary directory is removed only after that: whenever [start]
    fails at or before the loading, the database stays open. *)
Theorem database_closed_only_after_loading (params : setupContainerParams) :
  (DbClose ∈ (start_body params).2 ->
   exists csvFiles,
     LoadDataset csvFiles ∈ (start_body params).2 /\
     loadDatasetProcess w csvFiles = Ok ()) /\
  ((start_body params).1 = Ok () -> DbClose ∈ (start_body params).2).
Proof.
  split.
  - along_the_body; simpl; intros Hin;
      repeat (apply elem_of_cons in Hin as [Hin|Hin]; [try discriminate Hin|]);
      try (by apply elem_of_nil in Hin);
      (eexists; split; [|eassumption]; repeat (first [by left | right])).
  - along_the_body; simpl; intros H; try discriminate H;
      repeat (first [by left | right]).
Qed.

End Start.

(** *** Two worlds *)

(** Paths are joined with a slash, the directory of a path is cut off
    with [dirname_of], the list of files is a list of names. *)
Definition join_paths (a b : jsstring) : jsstring := a ++ lit "/" ++ b.

Fixpoint dirname_of (path : jsstring) : jsstring :=
  match path with
  | [] => []
  | c :: rest =>
      if existsb (N.eqb 47) rest then c :: dirname_of rest else []
  end.

Definition unknown_token (token : String.string) : Exception :=
  Error (lit "unregistered dependency token").

Definition no_update : Exception := Error (lit "ERROR_NO_UPDATE_IS_AVAILABLE").

(** Everything is in place, and the check finds an update or finds none. *)
Definition world (update : bool) : World (list jsstring) :=
  {| registered := fun _ => true;
     existsSync := fun _ => true;
     mkdir := fun _ => Ok ();
     updateCheck := Ok update;
     download_to := fun _ => Ok ();
     mkdtemp := fun prefix => Ok (prefix ++ lit "abcdef");
     fsIterator := fun _ _ => Ok [lit "mt_town_all.csv"];
     loadDatasetProcess := fun _ => Ok ();
     rm := fun _ => Ok () |}.

Definition ba000001 : setupContainerParams :=
  {| dataDir := lit "/data"; ckanId := lit "ba000001" |}.

Definition initialized_process : Init.Process setupContainerParams (list (Action (list jsstring))) :=
  {| Init.geocoding_initialized := false; Init.download_initialized := true;
     Init.container := []; Init.setups := [ba000001] |}.

Lemma no_update_stops_before_download_witness :
  updateCheck _ (world false) = Ok false /\
  Init.download_initialized _ _ initialized_process = true /\
  (forall token, registered _ (world false) token = true) /\
  existsSync _ (world false) (join_paths (dataDir ba000001) (lit "download")) = true /\
  (start join_paths dirname_of unknown_token no_update (list jsstring) (world false)
     ba000001 initialized_process).1 = Throw no_update.
Proof.
  assert (updateCheck _ (world false) = Ok false) as Hno by reflexivity.
  assert (forall token, registered _ (world false) token = true) as Hreg
    by (intros; reflexivity).
  split; [exact Hno|]. split; [reflexivity|]. split; [exact Hreg|]. split; [reflexivity|].
  exact (proj2 (no_update_stops_before_download join_paths dirname_of unknown_token
                  no_update (list jsstring) (world false) ba000001 initialized_process
                  Hno) eq_refl Hreg eq_refl).
Defined.

Lemma database_closed_only_after_loading_witness :
  (start_body join_paths dirname_of unknown_token no_update (list jsstring)
     (world true) ba000001).1 = Ok () /\
  DbClose _ ∈ (start_body join_paths dirname_of unknown_token no_update (list jsstring)
                 (world true) ba000001).2.
Proof.
  assert ((start_body join_paths dirname_of unknown_token no_update (list jsstring)
             (world true) ba000001).1 = Ok ()) as Hok by reflexivity.
  split; [exact Hok|].
  exact (proj2 (database_closed_only_after_loading join_paths dirname_of unknown_token
                  no_update (list jsstring) (world true) ba000001) Hok).
Defined.

End Actions.

(** ** RsdtDspDownloadSqlite3.upsertRows: keyed rows in one transaction *)

Module RsdtDsp.
Import Js.

(** A value of a row of a CSV file: [string | number]. *)
Inductive Cell : Type :=
  | Text (s : jsstring)
  | Number (n : float).

Section UpsertRows.

(** [Number::toString], the names of the columns ([DataField.X.dbColumn]),
    the two key functions of [TableKeyProvider] and what [upsert.run(row)]
    does with a row (it may throw): outside the sources embedded here. *)
Variable Number_toString : float -> jsstring.
Variable LG_CODE MACHIAZA_ID BLK_ID RSDT_ID RSDT2_ID RSDT_ADDR_FLG : list N.
Variable getRsdtBlkKey : jsstring -> jsstring -> jsstring -> Cell.
Variable getRsdtDspKey :
  jsstring -> option Cell -> option Cell -> option Cell -> option Cell -> option Cell -> Cell.
Variable upsert_run : gmap (list N) Cell -> Result ().

(** A row: [Record<string, string | number>]. *)
Local Abbreviation Row := (gmap (list N) Cell).

(** [value.toString()], where [value] may be [undefined]. *)
Definition toString (value : option Cell) : Result jsstring :=
  match value with
  | Some (Text s) => Ok s
  | Some (Number n) => Ok (Number_toString n)
  | None => Throw (TypeError (lit "Cannot read properties of undefined (reading 'toString')"))
  end.

(** The two assignments to a row in the loop. *)
Definition with_keys (lg_code machiaza_id blk_id : jsstring) (row : Row) : Row :=
  let row := <[ lit "rsdtblk_key" := getRsdtBlkKey lg_code machiaza_id blk_id ]> row in
  <[ lit "rsdtdsp_key" :=
       getRsdtDspKey lg_code (row !! MACHIAZA_ID) (row !! BLK_ID) (row !! RSDT_ID)
                     (row !! RSDT2_ID) (row !! RSDT_ADDR_FLG) ]> row.

(** The body of [for (const row of rows)], for the rows that are left:
    the rows as they are afterwards (they are changed in place), the rows
    handed to [upsert.run], and what is thrown if anything. *)
Fixpoint each_row (lg_code : jsstring) (rows : list Row)
  : Result () * list Row * list Row :=
  match rows with
  | [] => (Ok (), [], [])
  | row :: rest =>
      match toString (row !! MACHIAZA_ID) with
      | Throw e => (Throw e, row :: rest, [])
      | Ok machiaza_id =>
          match toString (row !! BLK_ID) with
          | Throw e => (Throw e, row :: rest, [])
          | Ok blk_id =>
              let row' := with_keys lg_code machiaza_id blk_id row in
              match upsert_run row' with
              | Throw e => (Throw e, row' :: rest, [row'])
              | Ok _ =>
                  let '(r, rest', ran) := each_row lg_code rest in
                  (r, row' :: rest', row' :: ran)
              end
          end
      end
  end.

(** The function handed to [this.transaction]. *)
Definition in_transaction (rows : list Row) : Result () * list Row * list Row :=
  match rows with
  | [] =>
      (Throw (TypeError (lit "Cannot read properties of undefined (reading '"
                         ++ LG_CODE ++ lit "')")), [], [])
  | first :: _ =>
      match toString (first !! LG_CODE) with
      | Throw e => (Throw e, rows, [])
      | Ok lg_code => each_row lg_code rows
      end
  end.

(** The outcome of [upsertRows]: whether the promise resolves, the rows
    as they are afterwards, and the rows the table has received.  A
    transaction that throws is rolled back. *)
Record Outcome : Type := mkOutcome {
  result : Result ();
  rows_after : list Row;
  upserted : list Row
}.

Definition upsertRows (rows : list Row) : Outcome :=
  let '(r, after, ran) := in_transaction rows in
  {| result := r;
     rows_after := after;
     upserted := match r with Ok _ => ran | Throw _ => [] end |}.

(** The keys a row gets when the batch has the municipality code [lg_code]. *)
Definition keyed (lg_code : jsstring) (row : Row) : option Row :=
  match toString (row !! MACHIAZA_ID), toString (row !! BLK_ID) with
  | Ok machiaza_id, Ok blk_id => Some (with_keys lg_code machiaza_id blk_id row)
  | _, _ => None
  end.

Lemma each_row_Ok lg_code rows : forall after ran,
  each_row lg_code rows = (Ok (), after, ran) ->
  after = ran /\ Forall2 (fun row row' => keyed lg_code row = Some row') rows ran.
Proof.
  induction rows as [|row rest IH]; intros after ran; cbn [each_row].
  - intros [= <- <-]. split; [done | constructor].
  - destruct (toString (row !! MACHIAZA_ID)) as [m|e] eqn:Hm; [|done].
    destruct (toString (row !! BLK_ID)) as [b|e] eqn:Hb; [|done].
    destruct (upsert_run _) as [[]|e]; [|done].
    destruct (each_row lg_code rest) as [[r rest'] ran'] eqn:Hrest.
    intros [= -> <- <-]. destruct (IH _ _ eq_refl) as [-> H2].
    split; [done|]. constructor; [|done].
    unfold keyed. by rewrite Hm, Hb.
Qed.


(** Every row of a batch is keyed with the municipality code of the first
    row of the batch: the code in a later row does not enter its keys. *)
Theorem keys_use_lg_code_of_first_row (rows : list Row) :
  result (upsertRows rows) = Ok () ->
  exists first rest lg_code,
    rows = first :: rest /\
    toString (first !! LG_CODE) = Ok lg_code /\
    Forall2 (fun row row' => keyed lg_code row = Some row') rows (upserted (upsertRows rows)).
Proof.
  unfold upsertRows, in_transaction. destruct rows as [|first rest]; [discriminate|].
  destruct (toString (first !! LG_CODE)) as [lg|e] eqn:Hlg; [|discriminate].
  destruct (each_row lg (first :: rest)) as [[[[]|e] after] ran] eqn:He; [|discriminate].
  intros _. exists first, rest, lg. split; [done|]. split; [done|].
  cbn [upserted]. by destruct (each_row_Ok _ _ _ _ He).
Qed.

End UpsertRows.

(** *** A batch with rows of two municipalities *)

Definition concat_key (lg_code machiaza_id blk_id : jsstring) : Cell :=
  Text (lg_code ++ lit "/" ++ machiaza_id ++ lit "/" ++ blk_id).

Definition lg_key (lg_code : jsstring) (_ _ _ _ _ : option Cell) : Cell := Text lg_code.

Definition row_of (lg_code machiaza_id blk_id : String.string) : gmap (list N) Cell :=
  list_to_map [(lit "lg_code", Text (lit lg_code));
               (lit "machiaza_id", Text (lit machiaza_id));
               (lit "blk_id", Text (lit blk_id))].

Definition two_municipalities : list (gmap (list N) Cell) :=
  [row_of "131016" "0058000" "001"; row_of "011011" "0001000" "002"].

Definition upsert_here : list (gmap (list N) Cell) -> Outcome :=
  upsertRows (fun _ => lit "0") (lit "lg_code") (lit "machiaza_id") (lit "blk_id")
    (lit "rsdt_id") (lit "rsdt2_id") (lit "rsdt_addr_flg")
    concat_key lg_key (fun _ => Ok ()).

(** The second row has the code [011011], and is keyed with [131016]. *)
Example second_row_keyed_with_first_code :
  (fun row => row !! lit "rsdtblk_key") <$> upserted (upsert_here two_municipalities) =
  [Some (Text (lit "131016/0058000/001")); Some (Text (lit "131016/0001000/002"))].
Proof. vm_compute. reflexivity. Qed.

Lemma keys_use_lg_code_of_first_row_witness :
  result (upsert_here two_municipalities) = Ok () /\
  exists first rest lg_code,
    two_municipalities = first :: rest /\
    toString (fun _ => lit "0") (first !! lit "lg_code") = Ok lg_code /\
    Forall2 (fun row row' =>
               keyed (fun _ => lit "0") (lit "machiaza_id") (lit "blk_id")
                 (lit "rsdt_id") (lit "rsdt2_id") (lit "rsdt_addr_flg")
                 concat_key lg_key lg_code row = Some row')
            two_municipalities (upserted (upsert_here two_municipalities)).
Proof.
  assert (result (upsert_here two_municipalities) = Ok ()) as Hok
    by (vm_compute; reflexivity).
  split; [exact Hok|].
  exact (keys_use_lg_code_of_first_row (fun _ => lit "0") (lit "lg_code")
           (lit "machiaza_id") (lit "blk_id") (lit "rsdt_id") (lit "rsdt2_id")
           (lit "rsdt_addr_flg") concat_key lg_key (fun _ => Ok ())
           two_municipalities Hok).
Defined.

End RsdtDsp.
